(** * xvg: the single-dataset XVG reader [XvgSingle] of [xvg.py]

    A shallow embedding of [src/xvg.py] (the older [src/xvg/xvg.py] has the
    same method bodies) and the properties of its header parser, its line
    loop, its [columns] property and its item access.

    Conventions of the model.
    - A Python [str] is a [string]; one [ascii] stands for one code point
      below 256.  Whitespace is what [str.isspace], [str.strip], [str.split]
      and the pattern class [\s] agree on in Python 3; [int] and [float]
      skip less around a number, see [int_isspace].
    - An exception is a value of [exn]; a computation that may raise returns
      a [result].
    - The instance attributes are the fields of the record [XvgSingle]; a
      method takes the record and returns the updated one.
    - A Python [dict] is an association list in insertion order.
    - The calls into [numpy] ([numpy.array], [ndarray.__getitem__]) and the
      builtins [int] and [float] follow their documented behaviour, with
      the default limit of 4300 digits on the numerals [int] converts. *)

From Stdlib Require Import String Ascii List ZArith Lia Bool.
From Stdlib Require Import Decimal DecimalNat DecimalString.
From Stdlib Require Import Sorting.Permutation Sorting.Sorted.
Import ListNotations.

Local Open Scope string_scope.
Local Open Scope Z_scope.

(** ** Exceptions and results *)

Inductive exn : Type :=
| IndexError
| ValueError
| KeyError
| TypeError.

Inductive result (A : Type) : Type :=
| Ok (a : A)
| Raise (e : exn).

Arguments Ok {A} a.
Arguments Raise {A} e.

Definition bind {A B : Type} (r : result A) (k : A -> result B) : result B :=
  match r with
  | Ok a => k a
  | Raise e => Raise e
  end.

Notation "x <- c1 ;; c2" := (bind c1 (fun x => c2))
  (at level 61, c1 at next level, right associativity).
Notation "' pat <- c1 ;; c2" := (bind c1 (fun x => match x with pat => c2 end))
  (at level 61, pat pattern, c1 at next level, right associativity).

Fixpoint mapM {A B : Type} (f : A -> result B) (l : list A) : result (list B) :=
  match l with
  | [] => Ok []
  | a :: l' => b <- f a ;; bs <- mapM f l' ;; Ok (b :: bs)
  end.

Definition is_ok {A : Type} (r : result A) : bool :=
  match r with Ok _ => true | Raise _ => false end.

(** ** Characters and strings *)

Definition dquote : ascii := Eval cbv in ascii_of_nat 34.
Definition squote : ascii := "'"%char.

(** Membership in the two-character string of the double and the single
    quote, the second operand of [in] in the source. *)
Definition is_quote (c : ascii) : bool :=
  Ascii.eqb c dquote || Ascii.eqb c squote.

(** [str.isspace] on one code point below 256: TAB..CR, FS..US, SPACE,
    NEL (0x85) and NBSP (0xA0). *)
Definition isspace (c : ascii) : bool :=
  let n := nat_of_ascii c in
  ((9 <=? n) && (n <=? 13) || (28 <=? n) && (n <=? 32)
   || (n =? 133) || (n =? 160))%nat.

Definition is_digit (c : ascii) : bool :=
  let n := nat_of_ascii c in ((48 <=? n) && (n <=? 57))%nat.

Definition digit_value (c : ascii) : Z := Z.of_nat (nat_of_ascii c) - 48.

(** [s.startswith(p)] *)
Definition startswith (s p : string) : bool := String.prefix p s.

(** [s[1:]] *)
Definition drop1 (s : string) : string :=
  match s with
  | EmptyString => EmptyString
  | String _ r => r
  end.

Fixpoint lstrip (s : string) : string :=
  match s with
  | String c r => if isspace c then lstrip r else s
  | EmptyString => EmptyString
  end.

Fixpoint rstrip (s : string) : string :=
  match s with
  | String c r =>
      match rstrip r with
      | EmptyString => if isspace c then EmptyString else String c EmptyString
      | r' => String c r'
      end
  | EmptyString => EmptyString
  end.

(** [s.strip()] *)
Definition strip (s : string) : string := rstrip (lstrip s).

(** A word under construction and the words after it, put together. *)
Definition push_word (w : string) (ws : list string) : list string :=
  match w with
  | EmptyString => ws
  | _ => w :: ws
  end.

(** [split_scan s] is the pair of the characters that still belong to the
    word running at the head of [s] and of the words after it. *)
Fixpoint split_scan (s : string) : string * list string :=
  match s with
  | EmptyString => (EmptyString, [])
  | String c r =>
      let '(w, ws) := split_scan r in
      if isspace c then (EmptyString, push_word w ws) else (String c w, ws)
  end.

(** [s.split()]: the maximal runs of non-whitespace characters. *)
Definition split (s : string) : list string :=
  let '(w, ws) := split_scan s in push_word w ws.

(** ** The tokenizer [RE_SPLIT.findall]

    [RE_SPLIT] is one group holding one or more repetitions of three
    alternatives: a character that is neither whitespace nor a quote; a
    double quote, any characters but a double quote, and a double quote; the
    same with single quotes.  A match is thus a maximal run of units, a unit
    being one plain character or a quoted stretch with both its quotes.
    The three alternatives start with different characters and a quoted
    unit matches exactly when its closing quote exists, so the backtracking
    matcher has a single way through a string.
    [findall] returns the matches from left to right and skips a character
    where no unit starts: whitespace, or a quote that is never closed. *)

Fixpoint has_char (q : ascii) (s : string) : bool :=
  match s with
  | EmptyString => false
  | String c r => Ascii.eqb c q || has_char q r
  end.

(** [re_scan inq s]: [inq] is [Some q] inside a unit opened by the quote [q].
    The result is the rest of the match running at the head of [s] and the
    matches after it. *)
Fixpoint re_scan (inq : option ascii) (s : string) : string * list string :=
  match s with
  | EmptyString => (EmptyString, [])
  | String c r =>
      match inq with
      | Some q =>
          let '(w, ws) := re_scan (if Ascii.eqb c q then None else Some q) r in
          (String c w, ws)
      | None =>
          if isspace c then
            let '(w, ws) := re_scan None r in (EmptyString, push_word w ws)
          else if is_quote c then
            if has_char c r then
              let '(w, ws) := re_scan (Some c) r in (String c w, ws)
            else
              let '(w, ws) := re_scan None r in (EmptyString, push_word w ws)
          else
            let '(w, ws) := re_scan None r in (String c w, ws)
      end
  end.

Definition findall (s : string) : list string :=
  let '(w, ws) := re_scan None s in push_word w ws.

(** ** Python list and dict operations *)

(** [l.pop(0)] *)
Definition list_pop0 {A : Type} (l : list A) : result (A * list A) :=
  match l with
  | [] => Raise IndexError
  | a :: l' => Ok (a, l')
  end.

(** [l[0]] *)
Definition list_item0 {A : Type} (l : list A) : result A :=
  match l with
  | [] => Raise IndexError
  | a :: _ => Ok a
  end.

(** [l.pop()]: the last element and the list without it. *)
Fixpoint list_pop {A : Type} (l : list A) : result (A * list A) :=
  match l with
  | [] => Raise IndexError
  | [a] => Ok (a, [])
  | a :: l' => '(x, r) <- list_pop l' ;; Ok (x, a :: r)
  end.

Definition pydict : Type := list (string * Z).

(** [key in d] and [d[key]] *)
Fixpoint dict_get (d : pydict) (key : string) : option Z :=
  match d with
  | [] => None
  | (k, v) :: d' => if String.eqb k key then Some v else dict_get d' key
  end.

(** [d[key] = v]: a key already there keeps its place, a new key goes last. *)
Fixpoint dict_set (d : pydict) (key : string) (v : Z) : pydict :=
  match d with
  | [] => [(key, v)]
  | (k, v') :: d' =>
      if String.eqb k key then (k, v) :: d' else (k, v') :: dict_set d' key v
  end.

(** ** The builtin [int] on a string

    Base 10: surrounding whitespace, an optional sign, then digits, where a
    single underscore may stand between two digits.  The whitespace [int]
    and [float] skip around a number is TAB..CR and SPACE, and NEL and NBSP,
    which they first turn into spaces; FS..US, which [str.strip] removes,
    they refuse.  A numeral of more than [int_max_str_digits] digits, the
    default of [sys.int_info], is refused with [ValueError] (CPython 3.11
    and later).  The parser calls [int] on the command without its first
    character; a command written between quotes may hold whitespace. *)

Definition int_isspace (c : ascii) : bool :=
  let n := nat_of_ascii c in
  ((9 <=? n) && (n <=? 13) || (n =? 32) || (n =? 133) || (n =? 160))%nat.

Fixpoint int_lstrip (s : string) : string :=
  match s with
  | String c r => if int_isspace c then int_lstrip r else s
  | EmptyString => EmptyString
  end.

Fixpoint int_rstrip (s : string) : string :=
  match s with
  | String c r =>
      match int_rstrip r with
      | EmptyString =>
          if int_isspace c then EmptyString else String c EmptyString
      | r' => String c r'
      end
  | EmptyString => EmptyString
  end.

Definition int_strip (s : string) : string := int_rstrip (int_lstrip s).

(** [sys.int_info.default_max_str_digits] *)
Definition int_max_str_digits : Z := 4300.

(** The digits of a numeral are no more than [int] converts. *)
Definition within_int_limit (ds : string) : bool :=
  Z.of_nat (String.length ds) <=? int_max_str_digits.

(** The longest run of digits at the head of [s] in which each digit may be
    preceded by one underscore: its digits and what follows. *)
Fixpoint digit_run (s : string) : string * string :=
  match s with
  | EmptyString => (EmptyString, EmptyString)
  | String c r =>
      if is_digit c then
        let '(ds, rest) := digit_run r in (String c ds, rest)
      else if Ascii.eqb c "_" then
        match r with
        | String d r' =>
            if is_digit d then
              let '(ds, rest) := digit_run r' in (String d ds, rest)
            else (EmptyString, s)
        | EmptyString => (EmptyString, s)
        end
      else (EmptyString, s)
  end.

(** A digit followed by such a run, if [s] starts with a digit. *)
Definition digitpart (s : string) : option (string * string) :=
  match s with
  | String c r =>
      if is_digit c then
        let '(ds, rest) := digit_run r in Some (String c ds, rest)
      else None
  | EmptyString => None
  end.

Fixpoint digits_to_Z (acc : Z) (ds : string) : Z :=
  match ds with
  | EmptyString => acc
  | String c r => digits_to_Z (10 * acc + digit_value c) r
  end.

Definition unsigned_int (s : string) : result Z :=
  match digitpart s with
  | Some (ds, EmptyString) =>
      if within_int_limit ds then Ok (digits_to_Z 0 ds) else Raise ValueError
  | _ => Raise ValueError
  end.

(** An optional sign at the head of [s]: whether it is a minus, and the rest. *)
Definition split_sign (s : string) : bool * string :=
  match s with
  | String c r =>
      if Ascii.eqb c "+" then (false, r)
      else if Ascii.eqb c "-" then (true, r)
      else (false, s)
  | EmptyString => (false, s)
  end.

Definition py_int (s : string) : result Z :=
  let '(neg, r) := split_sign (int_strip s) in
  n <- unsigned_int r ;; Ok (if neg then - n else n).

(** ** The builtin [float] on a string

    An optional sign, then [inf], [infinity] or [nan] in any case, or a
    decimal number: digits (underscores as for [int]) with an optional
    point, or a point and digits, and an optional exponent.  The value is
    kept as the exact decimal the text denotes, [m * 10 ^ e] with [m] not a
    multiple of ten (and [e = 0] when [m = 0]); the rounding to a binary64
    is outside the model. *)

Inductive pyfloat : Type :=
| FNan
| FInf (neg : bool)
| FDec (neg : bool) (m : Z) (e : Z).

Definition lower (c : ascii) : ascii :=
  let n := nat_of_ascii c in
  if ((65 <=? n) && (n <=? 90))%nat then ascii_of_nat (n + 32) else c.

Fixpoint lower_string (s : string) : string :=
  match s with
  | EmptyString => EmptyString
  | String c r => String (lower c) (lower_string r)
  end.

(** The digits of [ds] without its trailing zeros, and how many there were. *)
Fixpoint trim_zeros (ds : string) : string * Z :=
  match ds with
  | EmptyString => (EmptyString, 0)
  | String c r =>
      let '(r', k) := trim_zeros r in
      match r' with
      | EmptyString =>
          if Ascii.eqb c "0" then (EmptyString, k + 1)
          else (String c EmptyString, k)
      | _ => (String c r', k)
      end
  end.

Definition decimal (neg : bool) (ds : string) (e : Z) : pyfloat :=
  let '(ds', k) := trim_zeros ds in
  let m := digits_to_Z 0 ds' in
  FDec neg m (if m =? 0 then 0 else e + k).

(** The digits of an unsigned decimal number and its power of ten. *)
Definition float_number (s : string) : option (string * Z) :=
  let '(ip, r1) :=
    match digitpart s with Some p => p | None => (EmptyString, s) end in
  let '(fp, r2) :=
    match r1 with
    | String "." r =>
        match digitpart r with Some p => p | None => (EmptyString, r) end
    | _ => (EmptyString, r1)
    end in
  let ds := ip ++ fp in
  let shift := - Z.of_nat (String.length fp) in
  match ds with
  | EmptyString => None
  | _ =>
      match r2 with
      | EmptyString => Some (ds, shift)
      | String c r =>
          if Ascii.eqb (lower c) "e" then
            let '(eneg, r') := split_sign r in
            match digitpart r' with
            | Some (ed, EmptyString) =>
                let x := digits_to_Z 0 ed in
                Some (ds, (if eneg then - x else x) + shift)
            | _ => None
            end
          else None
      end
  end.

Definition py_float (s : string) : result pyfloat :=
  let '(neg, r) := split_sign (int_strip s) in
  let w := lower_string r in
  if String.eqb w "inf" || String.eqb w "infinity" then Ok (FInf neg)
  else if String.eqb w "nan" then Ok FNan
  else
    match float_number r with
    | Some (ds, e) => Ok (decimal neg ds e)
    | None => Raise ValueError
    end.

(** ** The matrix

    An [ndarray] of [float]s of one dimension, shape [(n,)], or of two,
    shape [(m, n)]: [m] rows of [n] elements each. *)

Inductive ndarray : Type :=
| Array1 (elems : list pyfloat)
| Array2 (ncols : nat) (rows : list (list pyfloat)).

(** [numpy.empty((0,))] *)
Definition numpy_empty0 : ndarray := Array1 [].

(** [numpy.array(values, dtype='float')] on a list of lists of strings: no
    rows give shape [(0,)]; rows of one length [n] give shape [(m, n)]; rows
    of different lengths, or an element [float] refuses, raise
    [ValueError]. *)
Definition numpy_array (values : list (list string)) : result ndarray :=
  match values with
  | [] => Ok (Array1 [])
  | row :: _ =>
      let n := List.length row in
      if forallb (fun r => Nat.eqb (List.length r) n) values then
        rows <- mapM (mapM py_float) values ;; Ok (Array2 n rows)
      else Raise ValueError
  end.

(** ** The class [XvgSingle] *)

Record XvgSingle : Type := mkXvg {
  _columns : pydict;
  _array : ndarray;
  xlabel : string;
  ylabel : string;
  title : string
}.

(** [__init__] *)
Definition __init__ : XvgSingle :=
  {| _columns := []; _array := numpy_empty0;
     xlabel := ""; ylabel := ""; title := "" |}.

Definition set_title (self : XvgSingle) (v : string) : XvgSingle :=
  {| _columns := _columns self; _array := _array self;
     xlabel := xlabel self; ylabel := ylabel self; title := v |}.

Definition set_xlabel (self : XvgSingle) (v : string) : XvgSingle :=
  {| _columns := _columns self; _array := _array self;
     xlabel := v; ylabel := ylabel self; title := title self |}.

Definition set_ylabel (self : XvgSingle) (v : string) : XvgSingle :=
  {| _columns := _columns self; _array := _array self;
     xlabel := xlabel self; ylabel := v; title := title self |}.

Definition set_columns (self : XvgSingle) (d : pydict) : XvgSingle :=
  {| _columns := d; _array := _array self;
     xlabel := xlabel self; ylabel := ylabel self; title := title self |}.

Definition set_array (self : XvgSingle) (a : ndarray) : XvgSingle :=
  {| _columns := _columns self; _array := a;
     xlabel := xlabel self; ylabel := ylabel self; title := title self |}.

(** The attributes the class table [_translate_commands] names. *)
Inductive attr : Type := attr_title | attr_xlabel | attr_ylabel.

Definition _translate_commands (command : string) : option attr :=
  if String.eqb command "title" then Some attr_title
  else if String.eqb command "xaxis" then Some attr_xlabel
  else if String.eqb command "yaxis" then Some attr_ylabel
  else None.

Definition setattr (self : XvgSingle) (a : attr) (v : string) : XvgSingle :=
  match a with
  | attr_title => set_title self v
  | attr_xlabel => set_xlabel self v
  | attr_ylabel => set_ylabel self v
  end.

(** *** [_parse_header_line] *)

Definition last_char (c : ascii) (s : string) : ascii :=
  (fix go (c : ascii) (s : string) : ascii :=
     match s with
     | EmptyString => c
     | String d r => go d r
     end) c s.

(** [s[:-1]] *)
Fixpoint drop_last (s : string) : string :=
  match s with
  | EmptyString => EmptyString
  | String _ EmptyString => EmptyString
  | String c r => String c (drop_last r)
  end.

(** One element of the comprehension: [token[1:-1]] when the first and the
    last character are the same quote, [token] otherwise.  [token[0]] on an
    empty token raises. *)
Definition unquote (token : string) : result string :=
  match token with
  | EmptyString => Raise IndexError
  | String c r =>
      if Ascii.eqb c (last_char c r) && is_quote c
      then Ok (drop_last r)
      else Ok token
  end.

(** The two assignments to [tokens]. *)
Definition header_tokens (line : string) : result (list string) :=
  mapM unquote (findall (strip (drop1 line))).

(** A raise comes before any assignment to [self], so the method is a
    function from [self] to the new [self] or the exception.  In the last
    branch the right-hand side [int(command[1:]) + 1] is evaluated before
    the subscript [tokens.pop()]. *)
Definition _parse_header_line (self : XvgSingle) (line : string)
  : result XvgSingle :=
  tokens <- header_tokens line ;;
  '(command, tokens) <- list_pop0 tokens ;;
  if String.eqb command "title" then
    '(v, _) <- list_pop0 tokens ;;
    Ok (set_title self v)
  else
    match _translate_commands command with
    | Some a =>
        '(v, _) <- list_pop0 tokens ;;
        Ok (setattr self a v)
    | None =>
        if startswith command "s" then
          t0 <- list_item0 tokens ;;
          if String.eqb t0 "legend" then
            '(_, tokens) <- list_pop0 tokens ;;
            n <- py_int (drop1 command) ;;
            '(name, _) <- list_pop tokens ;;
            Ok (set_columns self (dict_set (_columns self) name (n + 1)))
          else Ok self
        else Ok self
    end.

(** *** [parse]

    The [for] loop over the iterator [content].  The result holds [self] as
    the loop leaves it, the list [values] or the exception of a header line,
    and the lines the iterator has not given out. *)
Fixpoint parse_loop (self : XvgSingle) (values : list (list string))
    (content : list string)
  : XvgSingle * result (list (list string)) * list string :=
  match content with
  | [] => (self, Ok values, [])
  | line :: rest =>
      if startswith line "//" then (self, Ok values, rest)
      else if startswith line "@" then
        match _parse_header_line self line with
        | Ok self' => parse_loop self' values rest
        | Raise e => (self, Raise e, rest)
        end
      else if startswith line "#" then parse_loop self values rest
      else parse_loop self (values ++ [split line]) rest
  end.

(** [parse]: [self] after the call, whether it returned or raised, and the
    unread lines. *)
Definition parse (self : XvgSingle) (content : list string)
  : XvgSingle * result unit * list string :=
  let '(self', r, unread) := parse_loop self [] content in
  match r with
  | Raise e => (self', Raise e, unread)
  | Ok values =>
      match numpy_array values with
      | Ok a => (set_array self' a, Ok tt, unread)
      | Raise e => (self', Raise e, unread)
      end
  end.

(** [from_iter]: the new table, or the exception [parse] raised. *)
Definition from_iter (content : list string) : result XvgSingle :=
  let '(xvg, r, _) := parse __init__ content in
  _ <- r ;; Ok xvg.

(** *** The property [columns] *)

Definition item : Type := (string * Z)%type.

Fixpoint insert_item (x : item) (l : list item) : list item :=
  match l with
  | [] => [x]
  | y :: l' => if snd x <=? snd y then x :: l else y :: insert_item x l'
  end.

(** [sorted(d.items(), key=operator.itemgetter(1))]: [sorted] is stable, and
    so is this insertion sort, which puts an item before the items after it
    that have the same value. *)
Definition sorted_items (d : pydict) : list item :=
  fold_right insert_item [] d.

(** The [while] loop; [fuel] bounds the number of times its body runs, and
    [None] says the bound was reached with [items] not yet empty. *)
Fixpoint columns_loop (fuel : nat) (items : list item) (columns : list string)
    (i : Z) : option (list string) :=
  match items with
  | [] => Some columns
  | (name, v) :: items' =>
      match fuel with
      | O => None
      | S fuel' =>
          if v =? i
          then columns_loop fuel' items' (columns ++ [name]) (i + 1)
          else columns_loop fuel' items (columns ++ [""]) (i + 1)
      end
  end.

Definition columns (fuel : nat) (self : XvgSingle) : option (list string) :=
  columns_loop fuel (sorted_items (_columns self)) [] 0.

(** *** Item access

    The keys of the model: a string, an integer, a slice, a tuple of
    integers and slices, and a list of integers.  The values: a float or an
    array. *)

Inductive index : Type :=
| IInt (i : Z)
| ISlice (start stop step : option Z).

Inductive pykey : Type :=
| KStr (s : string)
| KIndex (ix : index)
| KTuple (ixs : list index)
| KList (l : list Z).

Inductive pyvalue : Type :=
| VFloat (x : pyfloat)
| VArray (a : ndarray).

(** The slice [:] *)
Definition slice_all : index := ISlice None None None.

Definition is_int (ix : index) : bool :=
  match ix with IInt _ => true | ISlice _ _ _ => false end.

(** [hash(key)]: a list has no hash, nor has a slice (before Python 3.12),
    nor a tuple that holds one. *)
Definition py_hash (key : pykey) : result unit :=
  match key with
  | KStr _ => Ok tt
  | KIndex ix => if is_int ix then Ok tt else Raise TypeError
  | KTuple ixs => if forallb is_int ixs then Ok tt else Raise TypeError
  | KList _ => Raise TypeError
  end.

(** [key in d] for a [dict] whose keys are strings: no other key is equal
    to one of them. *)
Definition dict_contains (d : pydict) (key : pykey) : bool :=
  match key with
  | KStr s => match dict_get d s with Some _ => true | None => false end
  | _ => false
  end.

(** [d[key]] *)
Definition dict_getitem (d : pydict) (key : pykey) : result Z :=
  match key with
  | KStr s =>
      match dict_get d s with
      | Some v => Ok v
      | None => Raise KeyError
      end
  | _ => Raise KeyError
  end.

(** An integer index on an axis of length [n]: a negative one counts from
    the end. *)
Definition norm_index (i n : Z) : result Z :=
  if (- n <=? i) && (i <? n) then Ok (if i <? 0 then i + n else i)
  else Raise IndexError.

(** [slice(start, stop, step).indices(n)] *)
Definition slice_indices (start stop step : option Z) (n : Z)
  : result (Z * Z * Z) :=
  let step := match step with Some s => s | None => 1 end in
  if step =? 0 then Raise ValueError
  else
    let lower := if step <? 0 then -1 else 0 in
    let upper := if step <? 0 then n - 1 else n in
    let adjust v := if v <? 0 then Z.max (v + n) lower else Z.min v upper in
    let start :=
      match start with
      | Some v => adjust v
      | None => if step <? 0 then upper else lower
      end in
    let stop :=
      match stop with
      | Some v => adjust v
      | None => if step <? 0 then lower else upper
      end in
    Ok (start, stop, step).

(** [list(range(start, stop, step))] for [step <> 0] *)
Definition py_range (start stop step : Z) : list Z :=
  let len :=
    if 0 <? step then
      if start <? stop then (stop - start - 1) / step + 1 else 0
    else
      if stop <? start then (start - stop - 1) / (- step) + 1 else 0 in
  map (fun k => start + Z.of_nat k * step) (seq 0 (Z.to_nat len)).

(** The elements of [l] at the positions [idx], in the order of [idx]. *)
Definition pick {A : Type} (l : list A) (idx : list Z) : list A :=
  flat_map (fun i => match nth_error l (Z.to_nat i) with
                     | Some x => [x]
                     | None => []
                     end) idx.

Definition item_of {A : Type} (l : list A) (i : Z) : result A :=
  j <- norm_index i (Z.of_nat (List.length l)) ;;
  match nth_error l (Z.to_nat j) with
  | Some x => Ok x
  | None => Raise IndexError
  end.

Definition slice_of {A : Type} (l : list A) (start stop step : option Z)
  : result (list A) :=
  '(a, b, c) <- slice_indices start stop step (Z.of_nat (List.length l)) ;;
  Ok (pick l (py_range a b c)).

(** One index on the first axis. *)
Definition getitem_axis0 (a : ndarray) (ix : index) : result pyvalue :=
  match a, ix with
  | Array1 elems, IInt i => x <- item_of elems i ;; Ok (VFloat x)
  | Array1 elems, ISlice b e s =>
      l <- slice_of elems b e s ;; Ok (VArray (Array1 l))
  | Array2 n rows, IInt i => r <- item_of rows i ;; Ok (VArray (Array1 r))
  | Array2 n rows, ISlice b e s =>
      l <- slice_of rows b e s ;; Ok (VArray (Array2 n l))
  end.

(** A row index and a column index on a matrix of [n] columns; the indices
    are checked in their order. *)
Definition getitem_axes (n : nat) (rows : list (list pyfloat))
    (ir ic : index) : result pyvalue :=
  match ir, ic with
  | IInt i, IInt j =>
      r <- item_of rows i ;; x <- item_of r j ;; Ok (VFloat x)
  | IInt i, ISlice b e s =>
      r <- item_of rows i ;; l <- slice_of r b e s ;; Ok (VArray (Array1 l))
  | ISlice b e s, IInt j =>
      rs <- slice_of rows b e s ;;
      _ <- norm_index j (Z.of_nat n) ;;
      col <- mapM (fun r => item_of r j) rs ;;
      Ok (VArray (Array1 col))
  | ISlice b e s, ISlice b' e' s' =>
      rs <- slice_of rows b e s ;;
      '(x, y, z) <- slice_indices b' e' s' (Z.of_nat n) ;;
      let idx := py_range x y z in
      Ok (VArray (Array2 (List.length idx) (map (fun r => pick r idx) rs)))
  end.

(** [a[key]], the indexing of [numpy] itself, on the keys of the model. *)
Definition ndarray_getitem (a : ndarray) (key : pykey) : result pyvalue :=
  match key with
  | KStr _ => Raise IndexError
  | KIndex ix => getitem_axis0 a ix
  | KTuple [] => Ok (VArray a)
  | KTuple [ix] => getitem_axis0 a ix
  | KTuple [ir; ic] =>
      match a with
      | Array1 _ => Raise IndexError
      | Array2 n rows => getitem_axes n rows ir ic
      end
  | KTuple _ => Raise IndexError
  | KList l =>
      match a with
      | Array1 elems =>
          r <- mapM (item_of elems) l ;; Ok (VArray (Array1 r))
      | Array2 n rows =>
          r <- mapM (item_of rows) l ;; Ok (VArray (Array2 n r))
      end
  end.

(** [__getitem__] *)
Definition __getitem__ (self : XvgSingle) (key : pykey) : result pyvalue :=
  let key_is_mutable :=
    match py_hash key with
    | Raise TypeError => false
    | _ => true
    end in
  if key_is_mutable && dict_contains (_columns self) key then
    j <- dict_getitem (_columns self) key ;;
    ndarray_getitem (_array self) (KTuple [slice_all; IInt j])
  else ndarray_getitem (_array self) key.

(** Column [j] of a matrix, [0 <= j < ncols]: one element of each row. *)
Definition matrix_column (j : nat) (rows : list (list pyfloat))
  : list pyfloat :=
  map (fun r => nth j r FNan) rows.

(** *** [__getattr__]

    Python calls [__getattr__] for a name the instance and its class do not
    have, and the method hands the name to the matrix.  The names of the
    model are three attributes of an [ndarray] that [XvgSingle] does not
    define. *)

Inductive ndattr : Type := nd_shape | nd_ndim | nd_size.

Inductive attrvalue : Type :=
| AInt (n : Z)
| ATuple (l : list Z).

(** [getattr(a, attr)] *)
Definition ndarray_getattr (a : ndarray) (attr : ndattr) : attrvalue :=
  match a, attr with
  | Array1 elems, nd_shape => ATuple [Z.of_nat (List.length elems)]
  | Array1 _, nd_ndim => AInt 1
  | Array1 elems, nd_size => AInt (Z.of_nat (List.length elems))
  | Array2 n rows, nd_shape =>
      ATuple [Z.of_nat (List.length rows); Z.of_nat n]
  | Array2 _ _, nd_ndim => AInt 2
  | Array2 n rows, nd_size => AInt (Z.of_nat (List.length rows) * Z.of_nat n)
  end.

Definition __getattr__ (self : XvgSingle) (attr : ndattr) : attrvalue :=
  ndarray_getattr (_array self) attr.

(** ** Vocabulary of the statements *)

Fixpoint string_forall (p : ascii -> bool) (s : string) : bool :=
  match s with
  | EmptyString => true
  | String c r => p c && string_forall p r
  end.

(** A character that is a unit of the pattern by itself. *)
Definition plain (c : ascii) : bool := negb (isspace c) && negb (is_quote c).

(** Whitespace only, possibly none; and at least one. *)
Definition blank (s : string) : bool := string_forall isspace s.

Definition blank1 (s : string) : bool :=
  match s with
  | EmptyString => false
  | _ => blank s
  end.

(** One or more decimal digits. *)
Definition digits (s : string) : bool :=
  match s with
  | EmptyString => false
  | _ => string_forall is_digit s
  end.


(** A string between two double quotes. *)
Definition quoted (s : string) : string :=
  String dquote (s ++ String dquote EmptyString).






(** The values of a [dict]. *)
Definition dict_values (d : pydict) : list Z := map snd d.

Definition dict_keys (d : pydict) : list string := map fst d.

(** The highest value of a [dict], [-1] when there is none at or above 0. *)
Definition highest (d : list item) : Z := fold_right Z.max (-1) (map snd d).

(** The invariant the data model states for [columnNames]. *)
Definition unique_nonneg (d : pydict) : Prop :=
  NoDup (dict_values d) /\ Forall (fun v => 0 <= v) (dict_values d).

(** No line of [pre] starts with the terminator. *)
Definition no_terminator (pre : list string) : Prop :=
  Forall (fun l => startswith l "//" = false) pre.

(** A line the loop takes as a comment or as a header directive. *)
Definition comment_or_header (line : string) : bool :=
  startswith line "@" || startswith line "#".

(** The rows of [values] do not all have one length. *)
Definition ragged (values : list (list string)) : Prop :=
  exists r1 r2, In r1 values /\ In r2 values
                /\ List.length r1 <> List.length r2.

(** Some token of [values] is not the text of a float. *)
Definition bad_token (values : list (list string)) : Prop :=
  exists r t, In r values /\ In t r /\ is_ok (py_float t) = false.

(** The legend form as the specification words it: the command is the
    letter [s] and one or more decimal digits, and the first argument is
    the word [legend]. *)
Definition recognized_legend (tokens : list string) : bool :=
  match tokens with
  | command :: arg :: _ =>
      startswith command "s" && digits (drop1 command)
      && String.eqb arg "legend"
  | _ => false
  end.

(** A recognized directive that stops before the argument it needs. *)
Definition missing_argument (line : string) : Prop :=
  (exists command,
      header_tokens line = Ok [command]
      /\ (command = "title" \/ command = "xaxis" \/ command = "yaxis"))
  \/ (exists ds,
         digits ds = true /\ header_tokens line = Ok ["s" ++ ds; "legend"]).

(** The rows the loop of [parse] gathers from [content]. *)
Fixpoint data_rows (content : list string) : list (list string) :=
  match content with
  | [] => []
  | line :: rest =>
      if startswith line "//" then []
      else if comment_or_header line then data_rows rest
      else split line :: data_rows rest
  end.

(** The header lines [hs] applied in their order, up to the first that
    raises. *)
Fixpoint apply_headers (self : XvgSingle) (hs : list string)
  : XvgSingle * result unit :=
  match hs with
  | [] => (self, Ok tt)
  | h :: hs' =>
      match _parse_header_line self h with
      | Ok self' => apply_headers self' hs'
      | Raise e => (self, Raise e)
      end
  end.

(** *** The procedure of the specification for [columns]

    The smallest unplaced item, the first of them among equals, and the
    items left, in their order. *)
Fixpoint extract_min (unplaced : list item) : option (item * list item) :=
  match unplaced with
  | [] => None
  | x :: l =>
      match extract_min l with
      | None => Some (x, [])
      | Some (m, r) =>
          if snd x <=? snd m then Some (x, l) else Some (m, x :: r)
      end
  end.

(** For position [i] upward while names remain unplaced: the name of the
    smallest unplaced index if that index is [i], else the empty string. *)
Fixpoint columns_spec (fuel : nat) (unplaced : list item) (i : Z)
  : option (list string) :=
  match extract_min unplaced with
  | None => Some []
  | Some (m, rest) =>
      match fuel with
      | O => None
      | S fuel' =>
          if snd m =? i
          then option_map (cons (fst m)) (columns_spec fuel' rest (i + 1))
          else option_map (cons "") (columns_spec fuel' unplaced (i + 1))
      end
  end.

(** The lines the loop of [parse] reads: those before the first line that
    starts with the terminator; the header lines among them; and the lines
    after that terminator. *)
Fixpoint lines_read (content : list string) : list string :=
  match content with
  | [] => []
  | line :: rest =>
      if startswith line "//" then [] else line :: lines_read rest
  end.

Definition header_lines (content : list string) : list string :=
  filter (fun l => startswith l "@") (lines_read content).

Fixpoint lines_after (content : list string) : list string :=
  match content with
  | [] => []
  | line :: rest =>
      if startswith line "//" then rest else lines_after rest
  end.

(** The floats of the tokens at position [j] of the rows. *)
Definition token_column (j : nat) (values : list (list string))
  : result (list pyfloat) :=
  mapM (fun row => match nth_error row j with
                   | Some t => py_float t
                   | None => Raise IndexError
                   end) values.

(** The name registered with the index [k], the empty string if none is. *)
Definition name_at (d : list item) (k : Z) : string :=
  match find (fun x => snd x =? k) d with
  | Some x => fst x
  | None => EmptyString
  end.




(** No quote of either kind in [s]; a character that is no whitespace. *)
Definition no_quote (s : string) : bool :=
  string_forall (fun c => negb (is_quote c)) s.

Definition not_space (c : ascii) : bool := negb (isspace c).


(** *** What a header line does, apart from the table it is done to

    [header_update] goes through the branches of [_parse_header_line] and
    returns the assignment in place of making it. *)

Inductive update : Type :=
| UNone
| UAttr (a : attr) (v : string)
| UColumn (name : string) (col : Z).

Definition apply_update (u : update) (self : XvgSingle) : XvgSingle :=
  match u with
  | UNone => self
  | UAttr a v => setattr self a v
  | UColumn name col =>
      set_columns self (dict_set (_columns self) name col)
  end.

Definition header_update (line : string) : result update :=
  tokens <- header_tokens line ;;
  '(command, tokens) <- list_pop0 tokens ;;
  if String.eqb command "title" then
    '(v, _) <- list_pop0 tokens ;;
    Ok (UAttr attr_title v)
  else
    match _translate_commands command with
    | Some a =>
        '(v, _) <- list_pop0 tokens ;;
        Ok (UAttr a v)
    | None =>
        if startswith command "s" then
          t0 <- list_item0 tokens ;;
          if String.eqb t0 "legend" then
            '(_, tokens) <- list_pop0 tokens ;;
            n <- py_int (drop1 command) ;;
            '(name, _) <- list_pop tokens ;;
            Ok (UColumn name (n + 1))
          else Ok UNone
        else Ok UNone
    end.

Definition apply_updates (us : list update) (self : XvgSingle) : XvgSingle :=
  fold_left (fun s u => apply_update u s) us self.

Definition attr_eqb (a b : attr) : bool :=
  match a, b with
  | attr_title, attr_title | attr_xlabel, attr_xlabel
  | attr_ylabel, attr_ylabel => true
  | _, _ => false
  end.

(** Two assignments to one attribute, or to one name of [_columns]. *)
Definition same_slot (u u' : update) : bool :=
  match u, u' with
  | UAttr a _, UAttr b _ => attr_eqb a b
  | UColumn k _, UColumn k' _ => String.eqb k k'
  | _, _ => false
  end.

(** The name of a column assignment is a key of the table already. *)
Definition present (u : update) (self : XvgSingle) : Prop :=
  match u with
  | UColumn k _ => In k (dict_keys (_columns self))
  | _ => True
  end.

(** The table has the value the assignment would give it. *)
Definition holds (u : update) (self : XvgSingle) : Prop :=
  match u with
  | UNone => True
  | UAttr attr_title v => title self = v
  | UAttr attr_xlabel v => xlabel self = v
  | UAttr attr_ylabel v => ylabel self = v
  | UColumn k v => dict_get (_columns self) k = Some v
  end.

(** The order [sorted] puts the items in. *)
Definition by_value (x y : item) : Prop := snd x <= snd y.

(** Case analysis on every [match] of a hypothesis. *)
Ltac break_match :=
  repeat match goal with
         | H : context [match ?x with _ => _ end] |- _ =>
             destruct x eqn:?; try discriminate H
         end.

(** ** Strings: stripping and splitting *)

Lemma append_nil_r (s : string) : s ++ "" = s.
Proof. induction s; simpl; congruence. Qed.

Lemma append_assoc (a b c : string) : (a ++ b) ++ c = a ++ b ++ c.
Proof. induction a; simpl; congruence. Qed.

Lemma string_forall_app (p : ascii -> bool) (a b : string) :
  string_forall p (a ++ b) = string_forall p a && string_forall p b.
Proof.
  induction a as [|c a IH]; simpl; [reflexivity|].
  rewrite IH. apply andb_assoc.
Qed.


Lemma plain_not_space (c : ascii) : plain c = true -> isspace c = false.
Proof.
  unfold plain. intros H. apply andb_true_iff in H.
  destruct H as [H _]. now apply negb_true_iff in H.
Qed.

Lemma plain_not_quote (c : ascii) : plain c = true -> is_quote c = false.
Proof.
  unfold plain. intros H. apply andb_true_iff in H.
  destruct H as [_ H]. now apply negb_true_iff in H.
Qed.

Lemma digit_plain (c : ascii) : is_digit c = true -> plain c = true.
Proof.
  destruct c as [[] [] [] [] [] [] [] []]; intros H;
    first [ discriminate H | reflexivity ].
Qed.

Lemma digits_plain (ds : string) :
  string_forall is_digit ds = true -> string_forall plain ds = true.
Proof.
  induction ds as [|c ds IH]; simpl; [reflexivity|].
  intros H. apply andb_true_iff in H. destruct H as [Hc Hds].
  now rewrite (digit_plain _ Hc), IH.
Qed.

Lemma lstrip_blank_app (ws s : string) :
  blank ws = true -> lstrip (ws ++ s) = lstrip s.
Proof.
  unfold blank. induction ws as [|c ws IH]; simpl; [reflexivity|].
  intros H. apply andb_true_iff in H. destruct H as [Hc Hws].
  rewrite Hc. auto.
Qed.

Lemma rstrip_blank (ws : string) : blank ws = true -> rstrip ws = "".
Proof.
  unfold blank. induction ws as [|c ws IH]; simpl; [reflexivity|].
  intros H. apply andb_true_iff in H. destruct H as [Hc Hws].
  now rewrite IH, Hc.
Qed.

Lemma rstrip_app_blank (s ws : string) :
  blank ws = true -> rstrip (s ++ ws) = rstrip s.
Proof.
  intros H. induction s as [|c s IH]; simpl.
  - now apply rstrip_blank.
  - now rewrite IH.
Qed.

(** [rstrip] leaves alone a string that ends with a kept character. *)
Lemma rstrip_app_fixed (a b : string) :
  b <> "" -> rstrip b = b -> rstrip (a ++ b) = a ++ b.
Proof.
  intros Hb Hfix. induction a as [|c a IH]; simpl; [exact Hfix|].
  rewrite IH. destruct (a ++ b) eqn:E; [|reflexivity].
  destruct a; simpl in E; [contradiction | discriminate].
Qed.




(** ** The tokenizer on words and blanks *)

Lemma re_scan_plain_app (w s : string) :
  string_forall plain w = true ->
  re_scan None (w ++ s) = (w ++ fst (re_scan None s), snd (re_scan None s)).
Proof.
  induction w as [|c w IH]; simpl.
  - intros _. now destruct (re_scan None s).
  - intros H. apply andb_true_iff in H. destruct H as [Hc Hw].
    rewrite (plain_not_space _ Hc), (plain_not_quote _ Hc), (IH Hw).
    reflexivity.
Qed.





Lemma re_scan_blank1_app (ws s : string) :
  blank1 ws = true -> re_scan None (ws ++ s) = ("", findall s).
Proof.
  unfold findall. induction ws as [|c ws IH]; [discriminate|].
  unfold blank1, blank. simpl. intros H.
  apply andb_true_iff in H. destruct H as [Hc Hws]. rewrite Hc.
  destruct ws as [|d ws].
  - simpl. now destruct (re_scan None s).
  - rewrite IH by exact Hws. simpl. now destruct (re_scan None s).
Qed.

(** A word, blanks, and the rest: the word is the first match. *)
Lemma findall_word_blank (w ws s : string) :
  w <> "" ->
  (forall r, re_scan None (w ++ r)
             = (w ++ fst (re_scan None r), snd (re_scan None r))) ->
  blank1 ws = true ->
  findall (w ++ ws ++ s) = w :: findall s.
Proof.
  intros Hne Hw Hws. unfold findall at 1.
  rewrite Hw, (re_scan_blank1_app _ _ Hws). simpl.
  rewrite append_nil_r. destruct w; [contradiction | reflexivity].
Qed.









(** ** [int] on decimal digits *)

Lemma digit_run_digits (ds : string) :
  string_forall is_digit ds = true -> digit_run ds = (ds, "").
Proof.
  induction ds as [|c ds IH]; simpl; [reflexivity|].
  intros H. apply andb_true_iff in H. destruct H as [Hc Hds].
  now rewrite Hc, (IH Hds).
Qed.

Lemma digit_no_sign (c : ascii) :
  is_digit c = true -> Ascii.eqb c "+" = false /\ Ascii.eqb c "-" = false.
Proof.
  destruct c as [[] [] [] [] [] [] [] []]; intros H;
    first [ discriminate H | split; reflexivity ].
Qed.

Lemma digit_not_int_space (c : ascii) :
  is_digit c = true -> int_isspace c = false.
Proof.
  destruct c as [[] [] [] [] [] [] [] []]; intros H;
    first [ discriminate H | reflexivity ].
Qed.

Lemma int_rstrip_digits (ds : string) :
  string_forall is_digit ds = true -> int_rstrip ds = ds.
Proof.
  induction ds as [|c ds IH]; simpl; [reflexivity|].
  intros H. apply andb_true_iff in H. destruct H as [Hc Hds].
  rewrite (IH Hds), (digit_not_int_space _ Hc). now destruct ds.
Qed.

(** [int] on one or more decimal digits: their value, up to the limit. *)
Lemma py_int_digits_limit (ds : string) :
  digits ds = true ->
  py_int ds
  = if within_int_limit ds then Ok (digits_to_Z 0 ds) else Raise ValueError.
Proof.
  destruct ds as [|c ds]; [discriminate|].
  unfold digits. intros H. unfold py_int, int_strip.
  assert (Hs : int_lstrip (String c ds) = String c ds).
  { simpl in H |- *. apply andb_true_iff in H. destruct H as [Hc _].
    now rewrite (digit_not_int_space _ Hc). }
  rewrite Hs, (int_rstrip_digits _ H).
  simpl in H. apply andb_true_iff in H. destruct H as [Hc Hds].
  destruct (digit_no_sign _ Hc) as [Hplus Hminus].
  unfold split_sign. rewrite Hplus, Hminus.
  unfold unsigned_int, digitpart.
  rewrite Hc, (digit_run_digits _ Hds).
  now destruct (within_int_limit (String c ds)).
Qed.

Lemma py_int_digits (ds : string) :
  digits ds = true -> within_int_limit ds = true ->
  py_int ds = Ok (digits_to_Z 0 ds).
Proof. intros H Hl. now rewrite (py_int_digits_limit _ H), Hl. Qed.


(** ** Header lines by their tokens *)

Lemma startswith_s (cmd : string) :
  startswith cmd "s" = true -> exists r, cmd = String "s" r.
Proof.
  destruct cmd as [|c r]; [discriminate|].
  unfold startswith. cbn [String.prefix].
  destruct (ascii_dec "s" c) as [<- | _]; [|discriminate].
  intros _. now exists r.
Qed.

Lemma startswith_s_cons (r : string) : startswith (String "s" r) "s" = true.
Proof.
  unfold startswith. cbn [String.prefix].
  destruct (ascii_dec "s" "s") as [_ | Hn]; [now destruct r | now elim Hn].
Qed.

(** The third branch, once the tokens are known to start with an [s]
    command and the word [legend]. *)
Lemma parse_header_legend_tokens (self : XvgSingle) (line cmd : string)
    (args : list string) :
  header_tokens line = Ok (cmd :: "legend" :: args) ->
  startswith cmd "s" = true ->
  _parse_header_line self line
  = (n <- py_int (drop1 cmd) ;;
     '(name, _) <- list_pop args ;;
     Ok (set_columns self (dict_set (_columns self) name (n + 1)))).
Proof.
  intros Ht Hs. destruct (startswith_s _ Hs) as [r ->].
  unfold _parse_header_line. rewrite Ht.
  cbn [bind list_pop0]. rewrite Hs. reflexivity.
Qed.

(** A command that is none of [title], [xaxis], [yaxis]. *)
Lemma parse_header_other_tokens (self : XvgSingle) (line cmd : string)
    (args : list string) :
  header_tokens line = Ok (cmd :: args) ->
  _translate_commands cmd = None ->
  _parse_header_line self line
  = (if startswith cmd "s" then
       t0 <- list_item0 args ;;
       if String.eqb t0 "legend" then
         '(_, tokens) <- list_pop0 args ;;
         n <- py_int (drop1 cmd) ;;
         '(name, _) <- list_pop tokens ;;
         Ok (set_columns self (dict_set (_columns self) name (n + 1)))
       else Ok self
     else Ok self).
Proof.
  intros Ht Hc. unfold _parse_header_line. rewrite Ht. simpl.
  unfold _translate_commands in Hc |- *.
  destruct (String.eqb cmd "title"); [discriminate|].
  destruct (String.eqb cmd "xaxis"); [discriminate|].
  destruct (String.eqb cmd "yaxis"); [discriminate|].
  reflexivity.
Qed.

Lemma lstrip_length (s : string) :
  (String.length (lstrip s) <= String.length s)%nat.
Proof.
  induction s as [|x s IH]; simpl; [lia|].
  destruct (isspace x); simpl; lia.
Qed.

Lemma strip_directive (ws1 body ws4 : string) :
  blank ws1 = true -> blank ws4 = true -> body <> "" ->
  lstrip body = body -> rstrip body = body ->
  strip (ws1 ++ body ++ ws4) = body.
Proof.
  intros H1 H4 Hne Hl Hr. unfold strip.
  rewrite (lstrip_blank_app _ _ H1).
  assert (Hl' : lstrip (body ++ ws4) = body ++ ws4).
  { destruct body as [|c b]; [contradiction|]. simpl in *.
    destruct (isspace c) eqn:Hc; [|reflexivity].
    exfalso. pose proof (lstrip_length b) as Hlen.
    rewrite Hl in Hlen. simpl in Hlen. lia. }
  rewrite Hl', (rstrip_app_blank _ _ H4). exact Hr.
Qed.



Lemma dict_get_set_same (d : pydict) (k : string) (v : Z) :
  dict_get (dict_set d k v) k = Some v.
Proof.
  induction d as [|[k' v'] d IH]; simpl.
  - now rewrite String.eqb_refl.
  - destruct (String.eqb k' k) eqn:E; simpl; rewrite E;
      [reflexivity | exact IH].
Qed.

Lemma dict_get_set_other (d : pydict) (k k' : string) (v : Z) :
  k' <> k -> dict_get (dict_set d k v) k' = dict_get d k'.
Proof.
  intros Hne. induction d as [|[a b] d IH]; cbn [dict_set dict_get].
  - apply String.eqb_neq in Hne. rewrite String.eqb_sym in Hne.
    now rewrite Hne.
  - destruct (String.eqb a k) eqn:E; cbn [dict_get].
    + apply String.eqb_eq in E. subst a.
      apply String.eqb_neq in Hne. rewrite String.eqb_sym in Hne.
      now rewrite Hne.
    + destruct (String.eqb a k'); [reflexivity | exact IH].
Qed.

(** ** Decimal numerals *)





(** ** Legend directives *)







Lemma parse_header_legend_long (self : XvgSingle) (line ds : string)
    (args : list string) :
  header_tokens line = Ok (("s" ++ ds) :: "legend" :: args) ->
  digits ds = true -> within_int_limit ds = false ->
  _parse_header_line self line = Raise ValueError.
Proof.
  intros Ht Hds Hl.
  rewrite (parse_header_legend_tokens self _ _ _ Ht (startswith_s_cons ds)).
  change (drop1 ("s" ++ ds)) with ds.
  now rewrite (py_int_digits_limit _ Hds), Hl.
Qed.




(** ** What a header line leaves alone *)

(** A header line changes one of [title], [xlabel], [ylabel], [_columns]
    and never the matrix. *)
Lemma parse_header_array (self self' : XvgSingle) (line : string) :
  _parse_header_line self line = Ok self' -> _array self' = _array self.
Proof.
  unfold _parse_header_line, bind. intros H.
  break_match; inversion H; subst; try reflexivity.
  match goal with a : attr |- _ => destruct a end; reflexivity.
Qed.

Lemma translate_none (cmd : string) :
  cmd <> "title" -> cmd <> "xaxis" -> cmd <> "yaxis" ->
  _translate_commands cmd = None.
Proof.
  intros H1 H2 H3. unfold _translate_commands.
  apply String.eqb_neq in H1, H2, H3. now rewrite H1, H2, H3.
Qed.

(** The exception of a directive that stops short: [IndexError], the list
    of tokens being empty where the argument is popped; for [sN legend]
    with an [N] of more digits than [int] converts, [ValueError], [int]
    being called before the name is popped. *)
Lemma missing_argument_raise (line : string) :
  missing_argument line ->
  exists e,
    (forall self, _parse_header_line self line = Raise e)
    /\ ((exists ds, header_tokens line = Ok ["s" ++ ds; "legend"]
                    /\ within_int_limit ds = false) -> e = ValueError)
    /\ (~ (exists ds, header_tokens line = Ok ["s" ++ ds; "legend"]
                      /\ within_int_limit ds = false) -> e = IndexError).
Proof.
  intros [[cmd [Ht Hc]] | [ds [Hds Ht]]].
  - exists IndexError. split; [|split].
    + intros self. unfold _parse_header_line. rewrite Ht.
      destruct Hc as [-> | [-> | ->]]; reflexivity.
    + intros [ds [Ht' _]]. rewrite Ht in Ht'. discriminate Ht'.
    + reflexivity.
  - destruct (within_int_limit ds) eqn:Hl.
    + exists IndexError. split; [|split].
      * intros self.
        rewrite (parse_header_legend_tokens self _ _ _ Ht
                   (startswith_s_cons ds)).
        change (drop1 ("s" ++ ds)) with ds.
        now rewrite (py_int_digits _ Hds Hl).
      * intros [ds' [Ht' Hl']]. rewrite Ht in Ht'. inversion Ht'; subst.
        congruence.
      * reflexivity.
    + exists ValueError. split; [|split].
      * intros self.
        now apply parse_header_legend_long with (ds := ds) (args := []).
      * reflexivity.
      * intros Hno. elim Hno. now exists ds.
Qed.

(** The lines that stop short: a command of the three with blanks around
    it, and an [s] command with the word [legend] and no name. *)
Lemma missing_argument_forms (ws1 ws2 ws3 ds : string) :
  blank ws1 = true -> blank ws2 = true ->
  (forall command,
      command = "title" \/ command = "xaxis" \/ command = "yaxis" ->
      missing_argument ("@" ++ ws1 ++ command ++ ws2))
  /\ (digits ds = true -> blank1 ws3 = true ->
      missing_argument ("@" ++ ws1 ++ ("s" ++ ds ++ ws3 ++ "legend") ++ ws2)).
Proof.
  intros H1 H2. split.
  - intros command Hc. left. exists command. split; [|exact Hc].
    unfold header_tokens. change (drop1 ("@" ++ ?x)) with x.
    destruct Hc as [-> | [-> | ->]];
      rewrite strip_directive by
        first [ assumption | reflexivity | discriminate ];
      reflexivity.
  - intros Hds H3. right. exists ds. split; [exact Hds|].
    assert (Hdp : string_forall plain ds = true).
    { destruct ds; [discriminate|]. now apply digits_plain. }
    assert (Hr : rstrip ("s" ++ ds ++ ws3 ++ "legend")
                 = "s" ++ ds ++ ws3 ++ "legend").
    { replace ("s" ++ ds ++ ws3 ++ "legend")
        with (("s" ++ ds ++ ws3) ++ "legend")
        by (now rewrite !append_assoc).
      now apply rstrip_app_fixed. }
    unfold header_tokens. change (drop1 ("@" ++ ?x)) with x.
    rewrite strip_directive by
      first [ assumption | reflexivity | discriminate ].
    rewrite <- (append_assoc "s" ds).
    rewrite findall_word_blank; try assumption; try discriminate.
    + cbn [findall re_scan mapM bind]. simpl. now rewrite andb_false_r.
    + intros r. apply re_scan_plain_app.
      rewrite string_forall_app. now rewrite Hdp.
Qed.

(** ** The loop of [parse] *)

Lemma header_not_terminator (line : string) :
  startswith line "@" = true -> startswith line "//" = false.
Proof.
  destruct line as [|c r]; [discriminate|].
  unfold startswith. cbn [String.prefix].
  destruct (ascii_dec "@" c) as [<- | _]; [|discriminate].
  intros _.
  destruct (ascii_dec "/" "@") as [E | _]; [discriminate E | reflexivity].
Qed.

Lemma comment_not_terminator (line : string) :
  startswith line "#" = true ->
  startswith line "//" = false /\ startswith line "@" = false.
Proof.
  destruct line as [|c r]; [discriminate|].
  unfold startswith. cbn [String.prefix].
  destruct (ascii_dec "#" c) as [<- | _]; [|discriminate].
  intros _.
  destruct (ascii_dec "/" "#") as [E | _]; [discriminate E|].
  destruct (ascii_dec "@" "#") as [E | _]; [discriminate E|].
  split; reflexivity.
Qed.

(** The loop never touches the matrix. *)
Lemma parse_loop_array (content : list string) :
  forall self values self' r unread,
    parse_loop self values content = (self', r, unread) ->
    _array self' = _array self.
Proof.
  induction content as [|line rest IH]; intros self values self' r unread;
    cbn [parse_loop].
  - intros H. now inversion H.
  - destruct (startswith line "//"); [intros H; now inversion H|].
    destruct (startswith line "@").
    + destruct (_parse_header_line self line) as [s1|e] eqn:Hh.
      * intros H. rewrite (IH _ _ _ _ _ H).
        now apply parse_header_array with line.
      * intros H. now inversion H.
    + destruct (startswith line "#"); apply IH.
Qed.

(** The rows the loop returns are those of [data_rows]. *)
Lemma parse_loop_values (content : list string) :
  forall self values self' vs unread,
    parse_loop self values content = (self', Ok vs, unread) ->
    vs = (values ++ data_rows content)%list.
Proof.
  induction content as [|line rest IH]; intros self values self' vs unread;
    cbn [parse_loop data_rows].
  - intros H. inversion H. now rewrite app_nil_r.
  - destruct (startswith line "//") eqn:Ht.
    + intros H. inversion H. now rewrite app_nil_r.
    + unfold comment_or_header. destruct (startswith line "@") eqn:Ha.
      * cbn [orb]. destruct (_parse_header_line self line); [apply IH|].
        intros H. inversion H.
      * cbn [orb]. destruct (startswith line "#").
        -- apply IH.
        -- intros H. rewrite (IH _ _ _ _ _ H). now rewrite <- app_assoc.
Qed.

(** A header line that raises in every state stops the loop, whatever comes
    before it short of a terminator. *)
Lemma parse_loop_header_raise (line : string) (post : list string) :
  startswith line "@" = true ->
  (forall s, exists e, _parse_header_line s line = Raise e) ->
  forall pre self values,
    no_terminator pre ->
    exists self' e unread,
      parse_loop self values (pre ++ line :: post) = (self', Raise e, unread).
Proof.
  intros Ha Hraise. induction pre as [|l pre IH]; intros self values Hpre;
    cbn [List.app parse_loop].
  - rewrite (header_not_terminator _ Ha), Ha.
    destruct (Hraise self) as [e He]. rewrite He. now exists self, e, post.
  - inversion Hpre as [|? ? Hl Hpre']; subst. rewrite Hl.
    destruct (startswith l "@").
    + destruct (_parse_header_line self l) as [s1|e].
      * now apply IH.
      * now exists self, e, (pre ++ line :: post)%list.
    + destruct (startswith l "#"); now apply IH.
Qed.

(** C9. A header line that is [title], [xaxis] or [yaxis] with no token
    after it, or [sN legend] with no name after it, raises in every state,
    and a parse that reaches the line raises and leaves the matrix as it
    was: no field is set to a default.  The exception is [IndexError],
    except for [sN legend] with an [N] of more than 4300 digits, where it
    is the [ValueError] of [int]. *)
Theorem missing_argument_fails_parse
    (self : XvgSingle) (pre : list string) (line : string)
    (post : list string) :
  missing_argument line ->
  startswith line "@" = true ->
  no_terminator pre ->
  exists e,
    (forall s, _parse_header_line s line = Raise e)
    /\ parse self (line :: post) = (self, Raise e, post)
    /\ (exists self' e' unread,
           parse self (pre ++ line :: post) = (self', Raise e', unread)
           /\ _array self' = _array self)
    /\ ((exists ds, header_tokens line = Ok ["s" ++ ds; "legend"]
                    /\ within_int_limit ds = false) -> e = ValueError)
    /\ (~ (exists ds, header_tokens line = Ok ["s" ++ ds; "legend"]
                      /\ within_int_limit ds = false) -> e = IndexError).
Proof.
  intros Hm Ha Hpre.
  destruct (missing_argument_raise line Hm) as [e [Hr [Hlong Hshort]]].
  exists e. split; [exact Hr|]. split; [|split; [|split; assumption]].
  - unfold parse. cbn [parse_loop].
    now rewrite (header_not_terminator _ Ha), Ha, Hr.
  - destruct (parse_loop_header_raise line post Ha
                (fun s => ex_intro _ e (Hr s)) pre self [] Hpre)
      as [s' [e' [u Hloop]]].
    exists s', e', u. unfold parse. rewrite Hloop. split; [reflexivity|].
    now apply parse_loop_array in Hloop.
Qed.

Lemma missing_argument_fails_parse_witness :
  exists e,
    (forall s, _parse_header_line s "@ title" = Raise e)
    /\ parse __init__ ["@ title"; "1 2"] = (__init__, Raise e, ["1 2"])
    /\ (exists self' e' unread,
           parse __init__ (["@ xaxis x"; "0 1"] ++ ["@ title"; "1 2"])
           = (self', Raise e', unread)
           /\ _array self' = _array __init__)
    /\ ((exists ds, header_tokens "@ title" = Ok ["s" ++ ds; "legend"]
                    /\ within_int_limit ds = false) -> e = ValueError)
    /\ (~ (exists ds, header_tokens "@ title" = Ok ["s" ++ ds; "legend"]
                      /\ within_int_limit ds = false) -> e = IndexError).
Proof.
  apply (missing_argument_fails_parse __init__ ["@ xaxis x"; "0 1"] "@ title"
           ["1 2"]).
  - left. exists "title". split; [reflexivity | now left].
  - reflexivity.
  - repeat constructor.
Defined.

(** ** Directives the parser passes over *)

(** C6, as the code has it. A header line whose command is none of
    [title], [xaxis], [yaxis] changes nothing and raises nothing when the
    command does not start with the letter [s], or when it has a first
    argument that is not the word [legend]. *)
Theorem ignored_directive_is_noop
    (self : XvgSingle) (line command : string) (args : list string) :
  header_tokens line = Ok (command :: args) ->
  command <> "title" -> command <> "xaxis" -> command <> "yaxis" ->
  startswith command "s" = false
  \/ (exists arg rest, args = arg :: rest /\ arg <> "legend") ->
  _parse_header_line self line = Ok self.
Proof.
  intros Ht H1 H2 H3 Hcase.
  rewrite (parse_header_other_tokens self _ _ _ Ht (translate_none _ H1 H2 H3)).
  destruct Hcase as [Hs | [arg [rest [-> Harg]]]].
  - now rewrite Hs.
  - destruct (startswith command "s"); [|reflexivity].
    cbn [list_item0 bind]. apply String.eqb_neq in Harg. now rewrite Harg.
Qed.

Lemma ignored_directive_is_noop_witness :
  _parse_header_line __init__ "@ s0 on" = Ok __init__.
Proof.
  apply (ignored_directive_is_noop __init__ "@ s0 on" "s0" ["on"]).
  - reflexivity.
  - discriminate.
  - discriminate.
  - discriminate.
  - right. exists "on", []. split; [reflexivity | discriminate].
Defined.

(** C6, as the specification words it, fails: [@ s0] has a command that is
    none of the three and no argument, so it is not of the legend form, and
    it raises; [@ sfoo legend x] has no digits after the [s] and raises;
    [@ s-3 legend x] has none either and registers a column. *)
Lemma ignored_directive_counterexample :
  (header_tokens "@ s0" = Ok ["s0"]
   /\ _translate_commands "s0" = None
   /\ recognized_legend ["s0"] = false
   /\ _parse_header_line __init__ "@ s0" = Raise IndexError)
  /\ (header_tokens "@ sfoo legend x" = Ok ["sfoo"; "legend"; "x"]
      /\ _translate_commands "sfoo" = None
      /\ recognized_legend ["sfoo"; "legend"; "x"] = false
      /\ _parse_header_line __init__ "@ sfoo legend x" = Raise ValueError)
  /\ (header_tokens "@ s-3 legend x" = Ok ["s-3"; "legend"; "x"]
      /\ _translate_commands "s-3" = None
      /\ recognized_legend ["s-3"; "legend"; "x"] = false
      /\ _parse_header_line __init__ "@ s-3 legend x"
         = Ok (set_columns __init__ [("x", -2)])).
Proof. repeat split; reflexivity. Qed.

(** ** The values of [_columns] *)

Lemma dict_set_keys (d : pydict) (k : string) (v : Z) (x : string) :
  In x (dict_keys (dict_set d k v)) <-> In x (dict_keys d) \/ x = k.
Proof.
  unfold dict_keys. induction d as [|[k' v'] d IH]; simpl.
  - intuition.
  - destruct (String.eqb k' k) eqn:E; simpl.
    + apply String.eqb_eq in E. subst. intuition.
    + rewrite IH. intuition.
Qed.

Lemma dict_set_nodup_keys (d : pydict) (k : string) (v : Z) :
  NoDup (dict_keys d) -> NoDup (dict_keys (dict_set d k v)).
Proof.
  unfold dict_keys. induction d as [|[k' v'] d IH]; simpl; intros H.
  - repeat constructor. intros [].
  - inversion H as [|? ? Hn Hd]; subst.
    destruct (String.eqb k' k) eqn:E; simpl.
    + now constructor.
    + constructor; [|now apply IH].
      intros Hin. apply (dict_set_keys d k v k') in Hin.
      destruct Hin as [Hin | ->]; [now apply Hn|].
      now rewrite String.eqb_refl in E.
Qed.

Lemma dict_set_values (d : pydict) (k : string) (v x : Z) :
  In x (dict_values (dict_set d k v)) -> In x (dict_values d) \/ x = v.
Proof.
  unfold dict_values. induction d as [|[k' v'] d IH]; simpl.
  - intuition.
  - destruct (String.eqb k' k); simpl; intuition.
Qed.

Lemma dict_set_has_value (d : pydict) (k : string) (v : Z) :
  In v (dict_values (dict_set d k v)).
Proof.
  unfold dict_values. induction d as [|[k' v'] d IH]; simpl.
  - now left.
  - destruct (String.eqb k' k); simpl; [now left | now right].
Qed.

Lemma in_dict_key (d : pydict) (k : string) (v : Z) :
  In (k, v) d -> In k (dict_keys d).
Proof. intros H. apply (in_map fst) in H. exact H. Qed.

Lemma in_dict_value (d : pydict) (k : string) (v : Z) :
  In (k, v) d -> In v (dict_values d).
Proof. intros H. apply (in_map snd) in H. exact H. Qed.

(** An entry of another key survives the assignment. *)
Lemma dict_set_keeps (d : pydict) (k k' : string) (v v' : Z) :
  In (k', v') d -> k' <> k -> In (k', v') (dict_set d k v).
Proof.
  induction d as [|[a b] d IH]; simpl; [intros []|].
  intros [Heq | Hin] Hne.
  - inversion Heq; subst. apply String.eqb_neq in Hne. rewrite Hne. now left.
  - destruct (String.eqb a k); right; auto.
Qed.

(** The assignment keeps the values distinct exactly when no other key has
    the new value. *)
Lemma dict_set_nodup_values (d : pydict) (k : string) (v : Z) :
  NoDup (dict_keys d) -> NoDup (dict_values d) ->
  (NoDup (dict_values (dict_set d k v))
   <-> forall k' v', In (k', v') d -> k' <> k -> v' <> v).
Proof.
  unfold dict_keys, dict_values.
  induction d as [|[a b] d IH]; simpl; intros Hk Hv.
  - split; [intros _ ? ? [] | intros _; repeat constructor; intros []].
  - inversion Hk as [|? ? Hka Hkd]; inversion Hv as [|? ? Hva Hvd]; subst.
    destruct (String.eqb a k) eqn:E; simpl.
    + apply String.eqb_eq in E. subst a. split.
      * intros Hn k' v' [Heq | Hin] Hne.
        -- inversion Heq; subst. now elim Hne.
        -- inversion Hn as [|? ? Hnv _]; subst. intros ->.
           apply Hnv. now apply in_dict_value with k'.
      * intros Hother. constructor; [|exact Hvd].
        intros Hin. apply in_map_iff in Hin. destruct Hin as [[k' v'] [Hs Hin]].
        simpl in Hs. subst v'.
        apply (Hother k' v); [now right| | reflexivity].
        intros ->. apply Hka. now apply in_dict_key with v.
    + specialize (IH Hkd Hvd). split.
      * intros Hn k' v' [Heq | Hin] Hne.
        -- inversion Heq; subst. inversion Hn as [|? ? Hnv _]; subst.
           intros ->. apply Hnv. apply dict_set_has_value.
        -- inversion Hn as [|? ? _ Hnd]; subst.
           now apply (proj1 IH Hnd k' v').
      * intros Hother. constructor.
        -- intros Hin. apply dict_set_values in Hin.
           destruct Hin as [Hin | ->]; [now apply Hva|].
           apply (Hother a v); [now left| | reflexivity].
           intros ->. now rewrite String.eqb_refl in E.
        -- apply (proj2 IH). intros k' v' Hin. apply Hother. now right.
Qed.

(** What a header line may do to [_columns]: nothing, or one assignment. *)
Lemma parse_header_columns (self self' : XvgSingle) (line : string) :
  _parse_header_line self line = Ok self' ->
  _columns self' = _columns self
  \/ exists name col, _columns self' = dict_set (_columns self) name col.
Proof.
  unfold _parse_header_line, bind. intros H.
  break_match; inversion H; subst; try (now left).
  - left. match goal with a : attr |- _ => destruct a end; reflexivity.
  - right. eexists _, _. reflexivity.
Qed.

(** C7, as the code has it. The keys of [_columns] stay distinct. A header
    line leaves [_columns] as it is or assigns one column to one name, and
    the assignment keeps the values distinct and non-negative exactly when
    the column is non-negative and is the column of no other name; the
    values stay integers that need not be contiguous. *)
Theorem columns_values_conditional
    (self self' : XvgSingle) (line : string) :
  NoDup (dict_keys (_columns self)) ->
  unique_nonneg (_columns self) ->
  _parse_header_line self line = Ok self' ->
  NoDup (dict_keys (_columns self'))
  /\ (_columns self' = _columns self
      \/ exists name col,
          _columns self' = dict_set (_columns self) name col
          /\ (unique_nonneg (_columns self')
              <-> 0 <= col
                  /\ forall k v, In (k, v) (_columns self) ->
                                 k <> name -> v <> col)).
Proof.
  intros Hk [Hnd Hnn] H.
  destruct (parse_header_columns _ _ _ H) as [Heq | [name [col Heq]]];
    rewrite Heq.
  - split; [exact Hk | now left].
  - split; [now apply dict_set_nodup_keys|]. right. exists name, col.
    split; [reflexivity|]. unfold unique_nonneg. split.
    + intros [Hnd' Hnn']. split.
      * rewrite Forall_forall in Hnn'. apply Hnn', dict_set_has_value.
      * now apply (dict_set_nodup_values _ name col Hk Hnd).
    + intros [Hcol Hother]. split.
      * now apply (dict_set_nodup_values _ name col Hk Hnd).
      * rewrite Forall_forall in *. intros x Hx.
        apply dict_set_values in Hx. destruct Hx as [Hx | ->]; auto.
Qed.

Lemma columns_values_conditional_witness :
  NoDup (dict_keys [("A", 1); ("C", 3)])
  /\ (_columns (set_columns __init__ [("A", 1); ("C", 3)]) = [("A", 1)]
      \/ exists name col,
          [("A", 1); ("C", 3)] = dict_set [("A", 1)] name col
          /\ (unique_nonneg [("A", 1); ("C", 3)]
              <-> 0 <= col
                  /\ forall k v, In (k, v) [("A", 1)] ->
                                 k <> name -> v <> col)).
Proof.
  apply (columns_values_conditional (set_columns __init__ [("A", 1)])
           (set_columns __init__ [("A", 1); ("C", 3)]) "@ s2 legend C").
  - repeat constructor. intros [].
  - split.
    + constructor; [intros [] | constructor].
    + constructor; [simpl; lia | constructor].
  - reflexivity.
Defined.

(** C7, as the specification words it, fails: after [@ s0 legend A], whose
    values are distinct and non-negative, the line [@ s0 legend B] gives
    two names the column 1. *)
Lemma columns_values_counterexample :
  _parse_header_line __init__ "@ s0 legend A"
  = Ok (set_columns __init__ [("A", 1)])
  /\ unique_nonneg [("A", 1)]
  /\ _parse_header_line (set_columns __init__ [("A", 1)]) "@ s0 legend B"
     = Ok (set_columns __init__ [("A", 1); ("B", 1)])
  /\ ~ unique_nonneg [("A", 1); ("B", 1)].
Proof.
  split; [reflexivity|]. split; [|split; [reflexivity|]].
  - split.
    + constructor; [intros [] | constructor].
    + constructor; [simpl; lia | constructor].
  - intros [Hnd _]. inversion Hnd as [|? ? Hn _]; subst. apply Hn. now left.
Qed.

(** ** Assembling the matrix *)

Lemma mapM_raise {A B : Type} (f : A -> result B) (e0 : exn) :
  (forall x e, f x = Raise e -> e = e0) ->
  forall l e, mapM f l = Raise e -> e = e0.
Proof.
  intros Hf. induction l as [|a l IH]; intros e; cbn [mapM]; [discriminate|].
  destruct (f a) eqn:Ha; cbn [bind].
  - destruct (mapM f l) eqn:Hl; cbn [bind]; [discriminate|].
    intros H. inversion H; subst. now apply IH.
  - intros H. inversion H; subst. now apply Hf with a.
Qed.

Lemma mapM_not_ok {A B : Type} (f : A -> result B) (l : list A) (x : A) :
  In x l -> is_ok (f x) = false -> is_ok (mapM f l) = false.
Proof.
  induction l as [|a l IH]; [intros []|]. intros [-> | Hin] Hx; cbn [mapM].
  - destruct (f x); [discriminate | reflexivity].
  - destruct (f a); cbn [bind]; [|reflexivity].
    specialize (IH Hin Hx). destruct (mapM f l); [discriminate | reflexivity].
Qed.

Lemma py_float_raise (t : string) (e : exn) :
  py_float t = Raise e -> e = ValueError.
Proof.
  unfold py_float. intros H. break_match; now inversion H.
Qed.

Lemma forallb_length_equal (values : list (list string)) (n : nat)
    (r1 r2 : list string) :
  forallb (fun r => Nat.eqb (List.length r) n) values = true ->
  In r1 values -> In r2 values -> List.length r1 = List.length r2.
Proof.
  intros H H1 H2. rewrite forallb_forall in H.
  apply H in H1, H2. apply Nat.eqb_eq in H1, H2. congruence.
Qed.

(** Rows of different lengths, or a token that is no float, make
    [numpy.array] raise [ValueError]. *)
Lemma numpy_array_malformed (values : list (list string)) :
  ragged values \/ bad_token values -> numpy_array values = Raise ValueError.
Proof.
  intros H. unfold numpy_array.
  destruct values as [|row rest];
    [destruct H as [[? [? [[] _]]] | [? [? [[] _]]]]|].
  destruct (forallb _ (row :: rest)) eqn:Hall; [|reflexivity].
  destruct H as [[r1 [r2 [H1 [H2 Hne]]]] | [r [t [Hr [Ht Hbad]]]]].
  - elim Hne. now apply (forallb_length_equal _ _ _ _ Hall).
  - assert (Hrow : is_ok (mapM py_float r) = false)
      by now apply mapM_not_ok with t.
    pose proof (mapM_not_ok (mapM py_float) _ _ Hr Hrow) as Hno.
    destruct (mapM (mapM py_float) (row :: rest)) as [m|e] eqn:Hm;
      [discriminate|].
    cbn [bind]. f_equal.
    apply (mapM_raise (mapM py_float) ValueError) with (l := row :: rest);
      [|exact Hm].
    intros x e'. apply mapM_raise. exact py_float_raise.
Qed.

(** C3. When the rows gathered from the input have different numbers of
    tokens, or hold a token that is no float, [parse] raises and leaves the
    matrix as it was; once the lines are read without a header error, the
    exception is the [ValueError] of the assembly of the matrix.  The rows
    [1 2 3] and [4 5] raise it. *)
Theorem malformed_rows_raise (self : XvgSingle) (content : list string) :
  ragged (data_rows content) \/ bad_token (data_rows content) ->
  (exists self' e unread,
      parse self content = (self', Raise e, unread)
      /\ _array self' = _array self
      /\ (is_ok (snd (fst (parse_loop self [] content))) = true ->
          e = ValueError))
  /\ parse __init__ ["1 2 3"; "4 5"] = (__init__, Raise ValueError, []).
Proof.
  intros Hbad. split; [|reflexivity].
  unfold parse.
  destruct (parse_loop self [] content) as [[s r] u] eqn:Hloop.
  pose proof (parse_loop_array _ _ _ _ _ _ Hloop) as Harr.
  destruct r as [vs|e].
  - pose proof (parse_loop_values _ _ _ _ _ _ Hloop) as Hvs.
    cbn [List.app] in Hvs. subst vs.
    rewrite (numpy_array_malformed _ Hbad).
    exists s, ValueError, u. repeat split; auto.
  - exists s, e, u. repeat split; auto. discriminate.
Qed.

Lemma malformed_rows_raise_witness :
  (exists self' e unread,
      parse __init__ ["@ title T"; "# c"; "1 2"; "3 x"]
      = (self', Raise e, unread)
      /\ _array self' = _array __init__
      /\ (is_ok (snd (fst (parse_loop __init__ []
                             ["@ title T"; "# c"; "1 2"; "3 x"]))) = true ->
          e = ValueError))
  /\ parse __init__ ["1 2 3"; "4 5"] = (__init__, Raise ValueError, []).
Proof.
  apply (malformed_rows_raise __init__ ["@ title T"; "# c"; "1 2"; "3 x"]).
  right. exists ["3"; "x"], "x". split; [|split].
  - right. now left.
  - right. now left.
  - reflexivity.
Defined.

(** ** The terminator *)

Lemma parse_loop_terminator (line : string) (post : list string) :
  startswith line "//" = true ->
  forall pre self values,
    no_terminator pre ->
    match parse_loop self values pre with
    | (s, Ok vs, _) =>
        parse_loop self values (pre ++ line :: post) = (s, Ok vs, post)
    | (s, Raise e, u) =>
        parse_loop self values (pre ++ line :: post)
        = (s, Raise e, (u ++ line :: post)%list)
    end.
Proof.
  intros Ht. induction pre as [|l pre IH]; intros self values Hpre;
    cbn [List.app parse_loop].
  - now rewrite Ht.
  - inversion Hpre as [|? ? Hl Hpre']; subst. rewrite Hl.
    destruct (startswith l "@").
    + destruct (_parse_header_line self l) as [s1|e];
        [now apply IH | reflexivity].
    + destruct (startswith l "#"); now apply IH.
Qed.

(** C4. Before the first line that starts with [//], [parse] does what it
    does when the input ends there, so the terminator is no error; when the
    lines before it are read without a header error, the lines after it are
    all unread.  On the four lines of the example [parse] returns without
    an error, the matrix of the table is the one row [1.0, 2.0], its title
    is [T], and [3 4] is unread. *)
Theorem terminator_stops_parse
    (self : XvgSingle) (pre : list string) (line : string)
    (post : list string) :
  no_terminator pre ->
  startswith line "//" = true ->
  fst (parse self (pre ++ line :: post)) = fst (parse self pre)
  /\ (forall s vs u,
         parse_loop self [] pre = (s, Ok vs, u) ->
         parse_loop self [] (pre ++ line :: post) = (s, Ok vs, post)
         /\ snd (parse self (pre ++ line :: post)) = post)
  /\ (let r := parse __init__
                  ["@ title " ++ quoted "T"; "1 2"; "// stop"; "3 4"] in
      snd (fst r) = Ok tt
      /\ _array (fst (fst r)) = Array2 2 [[FDec false 1 0; FDec false 2 0]]
      /\ title (fst (fst r)) = "T"
      /\ _columns (fst (fst r)) = []
      /\ snd r = ["3 4"]).
Proof.
  intros Hpre Ht. pose proof (parse_loop_terminator line post Ht pre self []
                                Hpre) as H.
  split; [|split; [|repeat split; reflexivity]].
  - unfold parse. destruct (parse_loop self [] pre) as [[s [vs|e]] u];
      rewrite H; [destruct (numpy_array vs)|]; reflexivity.
  - intros s vs u Hloop. rewrite Hloop in H. split; [exact H|].
    unfold parse. rewrite H. now destruct (numpy_array vs).
Qed.

Lemma terminator_stops_parse_witness :
  fst (parse __init__ (["# c"; "1 2"] ++ "// end" :: ["x y"; "@ title"]))
  = fst (parse __init__ ["# c"; "1 2"])
  /\ (forall s vs u,
         parse_loop __init__ [] ["# c"; "1 2"] = (s, Ok vs, u) ->
         parse_loop __init__ []
           (["# c"; "1 2"] ++ "// end" :: ["x y"; "@ title"])
         = (s, Ok vs, ["x y"; "@ title"])
         /\ snd (parse __init__
                   (["# c"; "1 2"] ++ "// end" :: ["x y"; "@ title"]))
            = ["x y"; "@ title"])
  /\ (let r := parse __init__
                  ["@ title " ++ quoted "T"; "1 2"; "// stop"; "3 4"] in
      snd (fst r) = Ok tt
      /\ _array (fst (fst r)) = Array2 2 [[FDec false 1 0; FDec false 2 0]]
      /\ title (fst (fst r)) = "T"
      /\ _columns (fst (fst r)) = []
      /\ snd r = ["3 4"]).
Proof.
  apply (terminator_stops_parse __init__ ["# c"; "1 2"] "// end"
           ["x y"; "@ title"]).
  - repeat constructor.
  - reflexivity.
Defined.

(** ** Inputs without data rows *)

Lemma parse_loop_no_rows (content : list string) :
  Forall (fun l => comment_or_header l = true) content ->
  forall self values,
    parse_loop self values content
    = match apply_headers self
              (filter (fun l => startswith l "@") content) with
      | (s, Ok _) => (s, Ok values, [])
      | (s, Raise e) =>
          (s, Raise e, snd (parse_loop self values content))
      end.
Proof.
  induction content as [|l rest IH]; intros Hall self values;
    cbn [parse_loop filter apply_headers]; [reflexivity|].
  inversion Hall as [|? ? Hl Hrest]; subst.
  unfold comment_or_header in Hl. destruct (startswith l "@") eqn:Ha.
  - rewrite (header_not_terminator _ Ha). cbn [apply_headers].
    destruct (_parse_header_line self l) as [s1|e]; [|reflexivity].
    now apply IH.
  - cbn [orb] in Hl. destruct (comment_not_terminator _ Hl) as [Ht _].
    rewrite Ht, Hl. now apply IH.
Qed.

Lemma apply_headers_array (hs : list string) :
  forall self, _array (fst (apply_headers self hs)) = _array self.
Proof.
  induction hs as [|h hs IH]; intros self; cbn [apply_headers]; [reflexivity|].
  destruct (_parse_header_line self h) as [s1|e] eqn:Hh; [|reflexivity].
  rewrite IH. now apply parse_header_array with h.
Qed.

(** C5, as the code has it. When every line is a comment or a header
    directive, [parse] applies the header directives in their order and,
    unless one of them raises, sets the matrix to the empty array of one
    dimension; the other attributes are those the directives set, and
    [from_iter] returns that table.  A new table parsed from such lines has
    that matrix in every case. *)
Theorem no_rows_empty_matrix (self : XvgSingle) (content : list string) :
  Forall (fun l => comment_or_header l = true) content ->
  let headers := filter (fun l => startswith l "@") content in
  fst (parse self content)
  = (match apply_headers self headers with
     | (s, Ok _) => (set_array s (Array1 []), Ok tt)
     | (s, Raise e) => (s, Raise e)
     end)
  /\ from_iter content
     = (match apply_headers __init__ headers with
        | (s, Ok _) => Ok (set_array s (Array1 []))
        | (_, Raise e) => Raise e
        end)
  /\ _array (fst (fst (parse __init__ content))) = Array1 [].
Proof.
  intros Hall headers. subst headers.
  assert (Hparse : forall self0,
             fst (parse self0 content)
             = match apply_headers self0
                       (filter (fun l => startswith l "@") content) with
               | (s, Ok _) => (set_array s (Array1 []), Ok tt)
               | (s, Raise e) => (s, Raise e)
               end).
  { intros self0. unfold parse. rewrite (parse_loop_no_rows _ Hall).
    destruct (apply_headers self0 _) as [s [[]|e]]; reflexivity. }
  split; [apply Hparse|]. split.
  - unfold from_iter. specialize (Hparse __init__).
    destruct (parse __init__ content) as [[xvg r] u]. cbn [fst] in Hparse.
    destruct (apply_headers __init__ _) as [s [[]|e]];
      inversion Hparse; subst; reflexivity.
  - rewrite Hparse.
    pose proof (apply_headers_array
                  (filter (fun l => startswith l "@") content) __init__)
      as Ha.
    destruct (apply_headers __init__ _) as [s [[]|e]]; [reflexivity|].
    exact Ha.
Qed.

Lemma no_rows_empty_matrix_witness :
  fst (parse __init__ ["# energies"; "@ title T"; "@ s0 legend pot"])
  = (set_array (set_columns (set_title __init__ "T") [("pot", 1)])
       (Array1 []),
     Ok tt)
  /\ from_iter ["# energies"; "@ title T"; "@ s0 legend pot"]
     = Ok (set_array (set_columns (set_title __init__ "T") [("pot", 1)])
             (Array1 []))
  /\ _array (fst (fst (parse __init__
                         ["# energies"; "@ title T"; "@ s0 legend pot"])))
     = Array1 [].
Proof.
  apply (no_rows_empty_matrix __init__
           ["# energies"; "@ title T"; "@ s0 legend pot"]).
  repeat constructor.
Defined.

(** C5, as the specification words it, fails on an empty line: the loop
    takes it as a row of no tokens, and the matrix has two dimensions, one
    row and no column. *)
Lemma no_rows_counterexample :
  data_rows [""] = [[]]
  /\ parse __init__ [""] = (set_array __init__ (Array2 0 [[]]), Ok tt, [])
  /\ Array2 0 [[]] <> Array1 [].
Proof.
  split; [reflexivity|]. split; [reflexivity | discriminate].
Qed.

(** ** The property [columns] *)

Lemma insert_item_perm (x : item) (l : list item) :
  Permutation (insert_item x l) (x :: l).
Proof.
  induction l as [|y l IH]; cbn [insert_item]; [reflexivity|].
  destruct (snd x <=? snd y); [reflexivity|].
  rewrite IH. apply perm_swap.
Qed.

Lemma sorted_items_perm (d : pydict) : Permutation (sorted_items d) d.
Proof.
  induction d as [|x d IH]; cbn [sorted_items fold_right]; [reflexivity|].
  fold (sorted_items d). rewrite insert_item_perm. now constructor.
Qed.

Lemma insert_item_sorted (x : item) (l : list item) :
  StronglySorted by_value l -> StronglySorted by_value (insert_item x l).
Proof.
  induction l as [|y l IH]; cbn [insert_item]; intros Hs.
  - repeat constructor.
  - inversion Hs as [|? ? Hl Hy]; subst.
    destruct (snd x <=? snd y) eqn:E.
    + apply Z.leb_le in E. constructor; [exact Hs|].
      constructor; [exact E|].
      rewrite Forall_forall in *. intros z Hz. specialize (Hy z Hz).
      unfold by_value in *. lia.
    + apply Z.leb_gt in E. constructor; [now apply IH|].
      rewrite Forall_forall in *. intros z Hz.
      apply (Permutation_in _ (insert_item_perm x l)) in Hz.
      destruct Hz as [<- | Hz]; [unfold by_value; lia | now apply Hy].
Qed.

Lemma sorted_items_sorted (d : pydict) :
  StronglySorted by_value (sorted_items d).
Proof.
  induction d as [|x d IH]; cbn [sorted_items fold_right]; [constructor|].
  now apply insert_item_sorted.
Qed.

Lemma highest_insert (x : item) (l : list item) :
  highest (insert_item x l) = Z.max (snd x) (highest l).
Proof.
  unfold highest. induction l as [|y l IH]; cbn [insert_item]; [reflexivity|].
  destruct (snd x <=? snd y); [reflexivity|].
  cbn [map fold_right] in *. rewrite IH. lia.
Qed.

Lemma highest_sorted (d : pydict) : highest (sorted_items d) = highest d.
Proof.
  induction d as [|x d IH]; cbn [sorted_items fold_right]; [reflexivity|].
  fold (sorted_items d). rewrite highest_insert, IH. reflexivity.
Qed.

(** The head of the sorted list is the first smallest item, and its tail is
    the sorted list of the others. *)
Lemma extract_min_sorted (u : list item) (m : item) (r : list item) :
  extract_min u = Some (m, r) -> sorted_items u = m :: sorted_items r.
Proof.
  revert m r. induction u as [|x l IH]; intros m r; cbn [extract_min];
    [discriminate|].
  change (sorted_items (x :: l)) with (insert_item x (sorted_items l)).
  destruct (extract_min l) as [[m' r']|] eqn:E.
  - rewrite (IH _ _ eq_refl). cbn [insert_item].
    destruct (snd x <=? snd m'); intros H; inversion H; subst.
    + now rewrite (IH _ _ eq_refl).
    + reflexivity.
  - intros H. inversion H; subst. destruct l; [reflexivity|].
    cbn [extract_min] in E. destruct (extract_min l) as [[? ?]|];
      [destruct (snd i <=? snd i0)|]; discriminate.
Qed.

Lemma extract_min_none (u : list item) : extract_min u = None -> u = [].
Proof.
  destruct u as [|x l]; [reflexivity|]. cbn [extract_min].
  destruct (extract_min l) as [[m r]|]; [destruct (snd x <=? snd m)|];
    discriminate.
Qed.

Lemma columns_loop_acc (fuel : nat) :
  forall items acc i,
    columns_loop fuel items acc i
    = option_map (fun r => (acc ++ r)%list) (columns_loop fuel items [] i).
Proof.
  induction fuel as [|fuel IH]; intros items acc i;
    destruct items as [|[n v] items']; cbn [columns_loop option_map];
    try (now rewrite app_nil_r); try reflexivity.
  destruct (v =? i).
  - rewrite (IH items' (acc ++ [n])%list), (IH items' ([] ++ [n])%list).
    destruct (columns_loop fuel items' [] (i + 1)); cbn [option_map];
      [now rewrite <- app_assoc | reflexivity].
  - rewrite (IH _ (acc ++ [""])%list), (IH _ ([] ++ [""])%list).
    destruct (columns_loop fuel _ [] (i + 1)); cbn [option_map];
      [now rewrite <- app_assoc | reflexivity].
Qed.

(** The loop over the sorted items is the procedure of the specification. *)
Lemma columns_loop_spec (fuel : nat) :
  forall u i, columns_loop fuel (sorted_items u) [] i = columns_spec fuel u i.
Proof.
  induction fuel as [|fuel IH]; intros u i; cbn [columns_spec];
    destruct (extract_min u) as [[m r]|] eqn:E;
    try (rewrite (extract_min_none _ E); reflexivity);
    rewrite (extract_min_sorted _ _ _ E); destruct m as [n v];
    cbn [columns_loop fst snd]; [reflexivity|].
  destruct (v =? i).
  - rewrite columns_loop_acc, IH.
    destruct (columns_spec fuel r (i + 1)); reflexivity.
  - rewrite <- (extract_min_sorted _ _ _ E).
    rewrite columns_loop_acc, IH.
    destruct (columns_spec fuel u (i + 1)); reflexivity.
Qed.

(** A loop that returns had items of distinct values, none below [i]. *)
Lemma columns_loop_some (fuel : nat) :
  forall items acc i res,
    columns_loop fuel items acc i = Some res ->
    NoDup (map snd items) /\ Forall (fun x => i <= snd x) items.
Proof.
  induction fuel as [|fuel IH]; intros items acc i res;
    destruct items as [|[n v] items']; cbn [columns_loop];
    try discriminate; try solve [intros _; split; constructor].
  destruct (v =? i) eqn:E; intros H; destruct (IH _ _ _ _ H) as [Hnd Hge].
  - apply Z.eqb_eq in E. subst v. split.
    + cbn [map snd]. constructor; [|exact Hnd].
      intros Hin. apply in_map_iff in Hin. destruct Hin as [x [Hx Hin]].
      rewrite Forall_forall in Hge. specialize (Hge x Hin). lia.
    + constructor; [cbn [snd]; lia|].
      rewrite Forall_forall in *. intros x Hx. specialize (Hge x Hx). lia.
  - split; [exact Hnd|]. rewrite Forall_forall in *.
    intros x Hx. specialize (Hge x Hx). lia.
Qed.

Lemma columns_loop_length (fuel : nat) :
  forall items acc i res,
    columns_loop fuel items acc i = Some res -> 0 <= i ->
    Z.of_nat (List.length res)
    = Z.of_nat (List.length acc) + (Z.max i (highest items + 1) - i).
Proof.
  induction fuel as [|fuel IH]; intros items acc i res;
    destruct items as [|[n v] items']; cbn [columns_loop];
    try discriminate;
    try (intros H Hi; inversion H; subst; unfold highest; simpl; lia).
  destruct (v =? i) eqn:E; intros H Hi.
  - apply Z.eqb_eq in E. subst v.
    rewrite (IH _ _ _ _ H) by lia. rewrite length_app. cbn [List.length].
    unfold highest. cbn [map fold_right snd]. lia.
  - apply Z.eqb_neq in E.
    destruct (columns_loop_some _ _ _ _ _ H) as [_ Hge].
    inversion Hge as [|? ? Hv _]; subst. cbn [snd] in Hv.
    rewrite (IH _ _ _ _ H) by lia. rewrite length_app. cbn [List.length].
    unfold highest. cbn [map fold_right snd]. lia.
Qed.

(** In the list returned, an item stands at the position of its value. *)
Lemma columns_loop_position (fuel : nat) :
  forall items acc i res,
    columns_loop fuel items acc i = Some res ->
    forall n v, In (n, v) items ->
                nth_error res (List.length acc + Z.to_nat (v - i)) = Some n.
Proof.
  induction fuel as [|fuel IH]; intros items acc i res;
    destruct items as [|[n0 v0] items']; cbn [columns_loop];
    try discriminate; try solve [intros _ ? ? []].
  destruct (v0 =? i) eqn:E; intros H n v Hin.
  - apply Z.eqb_eq in E. subst v0.
    destruct (columns_loop_some _ _ _ _ _ H) as [_ Hge].
    destruct Hin as [Heq | Hin].
    + inversion Heq; subst. rewrite columns_loop_acc in H.
      destruct (columns_loop fuel items' [] (v + 1)) as [r|];
        [|discriminate]. inversion H; subst.
      rewrite Z.sub_diag, Nat.add_0_r, <- app_assoc.
      rewrite nth_error_app2 by lia. now rewrite Nat.sub_diag.
    + rewrite Forall_forall in Hge. specialize (Hge _ Hin). cbn [snd] in Hge.
      rewrite <- (IH _ _ _ _ H n v Hin). rewrite length_app.
      cbn [List.length]. f_equal. lia.
  - apply Z.eqb_neq in E.
    destruct (columns_loop_some _ _ _ _ _ H) as [_ Hge].
    rewrite Forall_forall in Hge. specialize (Hge _ Hin). cbn [snd] in Hge.
    rewrite <- (IH _ _ _ _ H n v Hin). rewrite length_app.
    cbn [List.length]. f_equal. lia.
Qed.

(** Sorted items of distinct values, none below [i], are all placed. *)
Lemma columns_loop_terminates (items : list item) :
  StronglySorted by_value items -> NoDup (map snd items) ->
  forall i acc,
    Forall (fun x => i <= snd x) items ->
    exists fuel res, columns_loop fuel items acc i = Some res.
Proof.
  induction items as [|[n v] items' IH]; intros Hs Hnd i acc Hge.
  - now exists O, acc.
  - inversion Hs as [|? ? Hs' Hle]; inversion Hnd as [|? ? Hnv Hnd'];
      inversion Hge as [|? ? Hv _]; subst. cbn [snd] in Hv.
    assert (Hnext : Forall (fun x => v + 1 <= snd x) items').
    { rewrite Forall_forall in *. intros x Hx. specialize (Hle x Hx).
      unfold by_value in Hle. cbn [snd] in Hle.
      assert (snd x <> v) by (intros <-; apply Hnv; now apply in_map).
      lia. }
    remember (Z.to_nat (v - i)) as k eqn:Hk.
    revert i acc Hv Hk Hge. induction k as [|k IHk]; intros i acc Hv Hk Hge.
    + assert (v = i) by lia. subst i.
      destruct (IH Hs' Hnd' (v + 1) (acc ++ [n])%list Hnext) as [f [r Hr]].
      exists (S f), r. cbn [columns_loop]. now rewrite Z.eqb_refl.
    + assert (Hne : (v =? i) = false) by (apply Z.eqb_neq; lia).
      destruct (IHk (i + 1) (acc ++ [""])%list) as [f [r Hr]]; try lia.
      { constructor; [cbn [snd]; lia|].
        rewrite Forall_forall in *. intros x Hx. specialize (Hnext x Hx). lia. }
      exists (S f), r. cbn [columns_loop]. now rewrite Hne.
Qed.

Lemma columns_terminates_iff (self : XvgSingle) :
  (exists fuel res, columns fuel self = Some res)
  <-> NoDup (dict_values (_columns self))
      /\ Forall (fun v => 0 <= v) (dict_values (_columns self)).
Proof.
  unfold columns, dict_values.
  pose proof (sorted_items_perm (_columns self)) as Hp. split.
  - intros [fuel [res H]].
    destruct (columns_loop_some _ _ _ _ _ H) as [Hnd Hge].
    split.
    + apply (Permutation_NoDup (Permutation_map snd Hp) Hnd).
    + rewrite Forall_forall in *. intros v Hv.
      apply in_map_iff in Hv. destruct Hv as [x [<- Hx]].
      apply Hge. now apply (Permutation_in _ (Permutation_sym Hp)).
  - intros [Hnd Hge].
    apply columns_loop_terminates.
    + apply sorted_items_sorted.
    + apply (Permutation_NoDup (Permutation_map snd (Permutation_sym Hp)) Hnd).
    + rewrite Forall_forall in *. intros x Hx. apply Hge.
      apply in_map. now apply (Permutation_in _ Hp).
Qed.

(** More fuel does not change a list the loop has returned. *)
Lemma columns_loop_fuel (fuel : nat) :
  forall items acc i res extra,
    columns_loop fuel items acc i = Some res ->
    columns_loop (fuel + extra) items acc i = Some res.
Proof.
  induction fuel as [|fuel IH]; intros items acc i res extra;
    destruct items as [|[n v] items']; cbn [columns_loop Nat.add];
    try discriminate.
  - intros H. now destruct extra.
  - auto.
  - destruct (v =? i); apply IH.
Qed.

Lemma highest_lower (d : list item) : -1 <= highest d.
Proof.
  unfold highest. induction d as [|x d IH]; cbn [map fold_right]; lia.
Qed.

Lemma columns_never_returns (self : XvgSingle) :
  ~ (NoDup (dict_values (_columns self))
     /\ Forall (fun v => 0 <= v) (dict_values (_columns self))) ->
  forall fuel, columns fuel self = None.
Proof.
  intros Hno fuel. destruct (columns fuel self) as [res|] eqn:E; [|reflexivity].
  elim Hno. apply columns_terminates_iff. now exists fuel, res.
Qed.

(** C8. [columns] is the procedure of the specification: for position [i]
    from 0 upward while names remain unplaced, the name of the smallest
    unplaced index if that index is [i], else the empty string.  A list it
    returns is one longer than the highest registered index and holds each
    name at the position of its index; it returns one whenever the indices
    are distinct and non-negative.  After the legends 0 and 2 it is the
    empty string, [name0], the empty string, [name2]. *)
Theorem columns_follows_procedure :
  (forall fuel self, columns fuel self = columns_spec fuel (_columns self) 0)
  /\ (forall fuel self res,
         columns fuel self = Some res ->
         Z.of_nat (List.length res) = highest (_columns self) + 1
         /\ forall name j, In (name, j) (_columns self) ->
                           nth_error res (Z.to_nat j) = Some name)
  /\ (forall self,
         NoDup (dict_values (_columns self)) ->
         Forall (fun v => 0 <= v) (dict_values (_columns self)) ->
         exists fuel res,
           columns fuel self = Some res
           /\ forall extra, columns (fuel + extra) self = Some res)
  /\ (fst (parse __init__ ["@ s0 legend name0"; "@ s2 legend name2"])
      = (set_columns __init__ [("name0", 1); ("name2", 3)], Ok tt)
      /\ columns 4 (set_columns __init__ [("name0", 1); ("name2", 3)])
         = Some [""; "name0"; ""; "name2"]).
Proof.
  split; [|split; [|split]].
  - intros fuel self. apply columns_loop_spec.
  - intros fuel self res H. unfold columns in H. split.
    + rewrite (columns_loop_length _ _ _ _ _ H) by lia.
      rewrite highest_sorted. pose proof (highest_lower (_columns self)).
      cbn [List.length]. lia.
    + intros name j Hin.
      apply (Permutation_in _ (Permutation_sym (sorted_items_perm _))) in Hin.
      pose proof (columns_loop_position _ _ _ _ _ H name j Hin) as Hp.
      cbn [List.length] in Hp. now rewrite Z.sub_0_r in Hp.
  - intros self Hnd Hnn.
    destruct (proj2 (columns_terminates_iff self) (conj Hnd Hnn))
      as [fuel [res H]].
    exists fuel, res. split; [exact H|].
    intros extra. now apply columns_loop_fuel.
  - split; reflexivity.
Qed.

Lemma columns_follows_procedure_witness :
  Z.of_nat (List.length [""; "name0"; ""; "name2"])
  = highest [("name0", 1); ("name2", 3)] + 1
  /\ forall name j, In (name, j) [("name0", 1); ("name2", 3)] ->
                    nth_error [""; "name0"; ""; "name2"] (Z.to_nat j)
                    = Some name.
Proof.
  exact (proj1 (proj2 columns_follows_procedure) 4%nat
           (set_columns __init__ [("name0", 1); ("name2", 3)])
           [""; "name0"; ""; "name2"] eq_refl).
Defined.

(** C10, as the code has it. [columns] returns exactly when the registered
    indices are pairwise distinct and none is negative.  After two legend
    directives of one index and two names it never returns. *)
Theorem columns_terminates_exactly :
  (forall self,
      (exists fuel res, columns fuel self = Some res)
      <-> NoDup (dict_values (_columns self))
          /\ Forall (fun v => 0 <= v) (dict_values (_columns self)))
  /\ apply_headers __init__ ["@ s0 legend A"; "@ s0 legend B"]
     = (set_columns __init__ [("A", 1); ("B", 1)], Ok tt)
  /\ forall fuel,
      columns fuel (set_columns __init__ [("A", 1); ("B", 1)]) = None.
Proof.
  split; [exact columns_terminates_iff|]. split; [reflexivity|].
  apply columns_never_returns. intros [Hnd _].
  inversion Hnd as [|? ? Hn _]; subst. apply Hn. now left.
Qed.

Lemma columns_terminates_exactly_witness :
  exists fuel res,
    columns fuel (set_columns __init__ [("b", 2); ("a", 0)]) = Some res.
Proof.
  apply (proj1 columns_terminates_exactly
           (set_columns __init__ [("b", 2); ("a", 0)])).
  split.
  - constructor; [intros [H | []]; discriminate H|].
    constructor; [intros [] | constructor].
  - repeat (constructor; [simpl; lia|]). constructor.
Defined.

(** C10, as it is worded, fails: distinct indices do not suffice.  The
    line [@ s-3 legend x] registers the single index [-2], and the loop
    never reaches it. *)
Lemma columns_distinct_counterexample :
  _parse_header_line __init__ "@ s-3 legend x"
  = Ok (set_columns __init__ [("x", -2)])
  /\ NoDup (dict_values (_columns (set_columns __init__ [("x", -2)])))
  /\ forall fuel, columns fuel (set_columns __init__ [("x", -2)]) = None.
Proof.
  split; [reflexivity|]. split.
  - constructor; [intros [] | constructor].
  - apply columns_never_returns. intros [_ Hnn].
    inversion Hnn as [|? ? Hv _]; subst. simpl in Hv. lia.
Qed.

(** ** Item access *)

Lemma pick_seq {A : Type} (l : list A) (n a : nat) :
  (a + n <= List.length l)%nat ->
  pick l (map (fun k => 0 + Z.of_nat k * 1) (seq a n)) = firstn n (skipn a l).
Proof.
  unfold pick. revert a. induction n as [|n IH]; intros a Hle;
    cbn [seq map flat_map]; [reflexivity|].
  rewrite IH by lia.
  replace (Z.to_nat (0 + Z.of_nat a * 1)) with a by lia.
  destruct (nth_error l a) as [x|] eqn:E.
  - clear IH. revert a Hle E. induction l as [|y l IHl]; intros a Hle E.
    + destruct a; discriminate E.
    + destruct a as [|a]; cbn in E |- *.
      * now inversion E.
      * apply IHl; [cbn in Hle; lia | exact E].
  - apply nth_error_None in E. lia.
Qed.

(** The slice [:] takes everything. *)
Lemma slice_of_all {A : Type} (l : list A) :
  slice_of l None None None = Ok l.
Proof.
  unfold slice_of, slice_indices. cbn [bind Z.eqb Z.ltb Z.compare].
  unfold py_range. cbn [Z.ltb Z.compare].
  destruct (0 <? Z.of_nat (List.length l)) eqn:E.
  - replace (Z.to_nat ((Z.of_nat (List.length l) - 0 - 1) / 1 + 1))
      with (List.length l) by (rewrite Z.div_1_r; apply Z.ltb_lt in E; lia).
    rewrite pick_seq by lia. cbn [skipn]. now rewrite firstn_all.
  - apply Z.ltb_ge in E. destruct l; [reflexivity | cbn in E; lia].
Qed.

Lemma item_of_nth (r : list pyfloat) (j : Z) :
  0 <= j < Z.of_nat (List.length r) ->
  item_of r j = Ok (nth (Z.to_nat j) r FNan).
Proof.
  intros Hj. unfold item_of, norm_index.
  replace (- Z.of_nat (List.length r) <=? j) with true
    by (symmetry; apply Z.leb_le; lia).
  replace (j <? Z.of_nat (List.length r)) with true
    by (symmetry; apply Z.ltb_lt; lia).
  replace (j <? 0) with false by (symmetry; apply Z.ltb_ge; lia).
  cbn [andb bind].
  destruct (nth_error r (Z.to_nat j)) as [x|] eqn:E.
  - now rewrite (nth_error_nth _ _ _ E).
  - apply nth_error_None in E. lia.
Qed.

Lemma matrix_column_items (rows : list (list pyfloat)) (n : nat) (j : Z) :
  0 <= j < Z.of_nat n ->
  Forall (fun r => List.length r = n) rows ->
  mapM (fun r => item_of r j) rows = Ok (matrix_column (Z.to_nat j) rows).
Proof.
  intros Hj. induction rows as [|r rows IH]; intros Hall; cbn [mapM];
    [reflexivity|].
  inversion Hall as [|? ? Hr Hrest]; subst.
  rewrite item_of_nth by lia. cbn [bind]. now rewrite (IH Hrest).
Qed.

Lemma mapM_length {A B : Type} (f : A -> result B) (l : list A) :
  forall l', mapM f l = Ok l' -> List.length l' = List.length l.
Proof.
  induction l as [|a l IH]; intros l'; cbn [mapM].
  - intros H. now inversion H.
  - destruct (f a); cbn [bind]; [|discriminate].
    destruct (mapM f l) as [bs|]; cbn [bind]; [|discriminate].
    intros H. inversion H; subst. cbn [List.length]. now rewrite (IH bs).
Qed.

Lemma mapM_rows (n : nat) (values : list (list string)) :
  forall rows,
    forallb (fun r => Nat.eqb (List.length r) n) values = true ->
    mapM (mapM py_float) values = Ok rows ->
    Forall (fun r => List.length r = n) rows.
Proof.
  induction values as [|v values IH]; intros rows; cbn [forallb mapM].
  - intros _ H. inversion H. constructor.
  - intros Hall. apply andb_true_iff in Hall. destruct Hall as [Hv Hall].
    destruct (mapM py_float v) as [r|] eqn:Hr; cbn [bind]; [|discriminate].
    destruct (mapM (mapM py_float) values) as [rs|]; cbn [bind];
      [|discriminate].
    intros H. inversion H; subst. constructor; [|now apply IH].
    rewrite (mapM_length _ _ _ Hr). now apply Nat.eqb_eq.
Qed.


Lemma item_of_nth_error {A : Type} (l : list A) (i : nat) (x : A) :
  nth_error l i = Some x -> item_of l (Z.of_nat i) = Ok x.
Proof.
  intros H. assert (Hlt : (i < List.length l)%nat)
    by (apply nth_error_Some; congruence).
  unfold item_of, norm_index.
  replace (- Z.of_nat (List.length l) <=? Z.of_nat i) with true
    by (symmetry; apply Z.leb_le; lia).
  replace (Z.of_nat i <? Z.of_nat (List.length l)) with true
    by (symmetry; apply Z.ltb_lt; lia).
  replace (Z.of_nat i <? 0) with false by (symmetry; apply Z.ltb_ge; lia).
  cbn [andb bind]. now rewrite Nat2Z.id, H.
Qed.

Lemma getitem_registered (self : XvgSingle) (name : string) (j : Z) :
  dict_get (_columns self) name = Some j ->
  __getitem__ self (KStr name)
  = ndarray_getitem (_array self) (KTuple [slice_all; IInt j]).
Proof.
  intros Hj. unfold __getitem__.
  cbn [py_hash dict_contains dict_getitem andb]. now rewrite Hj.
Qed.






(** * Further properties of the code *)

(** ** The tokens of a header line *)

Lemma push_word_nonempty (w : string) (ws : list string) :
  Forall (fun t => t <> "") ws -> Forall (fun t => t <> "") (push_word w ws).
Proof.
  intros H. destruct w; cbn [push_word]; [exact H|].
  constructor; [discriminate | exact H].
Qed.

Lemma re_scan_nonempty (s : string) :
  forall inq, Forall (fun t => t <> "") (snd (re_scan inq s)).
Proof.
  induction s as [|c r IH]; intros inq; cbn [re_scan]; [constructor|].
  destruct inq as [q|].
  - specialize (IH (if Ascii.eqb c q then None else Some q)).
    now destruct (re_scan (if Ascii.eqb c q then None else Some q) r).
  - pose proof (IH None) as HN. pose proof (IH (Some c)) as HS.
    destruct (re_scan None r) as [w ws]. destruct (re_scan (Some c) r).
    cbn [snd] in *.
    destruct (isspace c); [now apply push_word_nonempty|].
    destruct (is_quote c); [|exact HN].
    destruct (has_char c r); [exact HS | now apply push_word_nonempty].
Qed.

Lemma findall_nonempty (s : string) :
  Forall (fun t => t <> "") (findall s).
Proof.
  unfold findall. pose proof (re_scan_nonempty s None) as H.
  destruct (re_scan None s). now apply push_word_nonempty.
Qed.

Lemma mapM_unquote_ok (l : list string) :
  Forall (fun t => t <> "") l -> exists l', mapM unquote l = Ok l'.
Proof.
  induction l as [|t l IH]; intros H; [now exists []|].
  inversion H as [|? ? Ht Hl]; subst. destruct (IH Hl) as [l' Hl'].
  cbn [mapM]. rewrite Hl'. destruct t as [|c r]; [contradiction|].
  cbn [unquote]. destruct (Ascii.eqb c (last_char c r) && is_quote c);
    cbn [bind]; eauto.
Qed.

Lemma lstrip_blank (ws : string) : blank ws = true -> lstrip ws = "".
Proof.
  intros H. rewrite <- (append_nil_r ws). now rewrite lstrip_blank_app.
Qed.

(** X1. The comprehension over the tokens never raises: the pattern gives
    no empty token, so [token[0]] is always there.  A header line that holds
    nothing but blanks after its first character has no token at all, and
    [tokens.pop(0)] raises [IndexError]. *)
Theorem header_tokens_total :
  (forall line, exists tokens, header_tokens line = Ok tokens)
  /\ (forall self line,
         blank (drop1 line) = true ->
         header_tokens line = Ok []
         /\ _parse_header_line self line = Raise IndexError).
Proof.
  split.
  - intros line. unfold header_tokens. apply mapM_unquote_ok, findall_nonempty.
  - intros self line Hb.
    assert (Ht : header_tokens line = Ok []).
    { unfold header_tokens, strip. now rewrite (lstrip_blank _ Hb). }
    split; [exact Ht|]. unfold _parse_header_line. now rewrite Ht.
Qed.

Lemma header_tokens_total_witness :
  header_tokens "@   " = Ok []
  /\ _parse_header_line __init__ "@   " = Raise IndexError.
Proof.
  exact (proj2 header_tokens_total __init__ "@   " eq_refl).
Defined.

(** ** Header lines without quotes *)

Lemma re_scan_no_quote (s : string) :
  no_quote s = true -> re_scan None s = split_scan s.
Proof.
  unfold no_quote. induction s as [|c r IH]; cbn [re_scan split_scan
    string_forall]; [reflexivity|].
  intros H. apply andb_true_iff in H. destruct H as [Hc Hr].
  apply negb_true_iff in Hc. rewrite Hc, (IH Hr).
  destruct (split_scan r). now destruct (isspace c).
Qed.

Lemma split_scan_lstrip (s : string) :
  split (lstrip s) = split s.
Proof.
  unfold split. induction s as [|c r IH]; cbn [lstrip]; [reflexivity|].
  destruct (isspace c) eqn:E; [|reflexivity].
  rewrite IH. cbn [split_scan]. destruct (split_scan r) as [w ws].
  rewrite E. now destruct w.
Qed.

Lemma split_scan_rstrip (s : string) :
  split_scan (rstrip s) = split_scan s.
Proof.
  induction s as [|c r IH]; cbn [rstrip]; [reflexivity|].
  destruct (rstrip r) as [|d r'] eqn:E.
  - cbn [split_scan] in *. rewrite <- IH.
    destruct (isspace c) eqn:Hc; cbn [split_scan]; rewrite ?Hc; reflexivity.
  - change (split_scan (String c (String d r')))
      with (let '(w, ws) := split_scan (String d r') in
            if isspace c then (EmptyString, push_word w ws)
            else (String c w, ws)).
    rewrite IH. reflexivity.
Qed.

Lemma split_strip (s : string) : split (strip s) = split s.
Proof.
  unfold strip. rewrite <- (split_scan_lstrip s). unfold split.
  now rewrite split_scan_rstrip.
Qed.

Lemma no_quote_lstrip (s : string) :
  no_quote s = true -> no_quote (lstrip s) = true.
Proof.
  unfold no_quote. induction s as [|c r IH]; cbn [lstrip]; [reflexivity|].
  intros H. destruct (isspace c); [|exact H].
  cbn [string_forall] in H. apply andb_true_iff in H. now apply IH.
Qed.

Lemma no_quote_rstrip (s : string) :
  no_quote s = true -> no_quote (rstrip s) = true.
Proof.
  unfold no_quote. induction s as [|c r IH]; cbn [rstrip]; [reflexivity|].
  cbn [string_forall]. intros H. apply andb_true_iff in H.
  destruct H as [Hc Hr]. specialize (IH Hr).
  destruct (rstrip r); [destruct (isspace c)|]; cbn [string_forall] in *;
    rewrite ?Hc; auto.
Qed.

Lemma split_scan_no_quote (s : string) :
  no_quote s = true ->
  no_quote (fst (split_scan s)) = true
  /\ Forall (fun t => no_quote t = true) (snd (split_scan s)).
Proof.
  unfold no_quote. induction s as [|c r IH]; cbn [split_scan string_forall].
  - intros _. split; [reflexivity | constructor].
  - intros H. apply andb_true_iff in H. destruct H as [Hc Hr].
    destruct (IH Hr) as [Hw Hws]. destruct (split_scan r) as [w ws].
    cbn [fst snd] in *. destruct (isspace c); cbn [fst snd string_forall].
    + split; [reflexivity|]. destruct w; cbn [push_word]; auto.
    + now rewrite Hc, Hw.
Qed.

Lemma mapM_unquote_id (l : list string) :
  Forall (fun t => t <> "") l -> Forall (fun t => no_quote t = true) l ->
  mapM unquote l = Ok l.
Proof.
  induction l as [|t l IH]; intros Hne Hnq; [reflexivity|].
  inversion Hne as [|? ? Ht Hl]; inversion Hnq as [|? ? Hq Hql]; subst.
  cbn [mapM]. rewrite (IH Hl Hql). destruct t as [|c r]; [contradiction|].
  unfold no_quote in Hq. cbn [string_forall] in Hq.
  apply andb_true_iff in Hq. destruct Hq as [Hc _]. apply negb_true_iff in Hc.
  cbn [unquote]. now rewrite Hc, andb_false_r.
Qed.

(** X2. On a header line that holds no quote character the tokens are
    those of [line[1:].split()]: the pattern splits around whitespace and
    the unquoting changes nothing. *)
Theorem header_tokens_without_quotes (line : string) :
  no_quote line = true ->
  header_tokens line = Ok (split (drop1 line)).
Proof.
  intros Hq. unfold header_tokens.
  assert (Hd : no_quote (drop1 line) = true).
  { destruct line; [reflexivity|]. unfold no_quote in *.
    cbn [string_forall] in Hq. now apply andb_true_iff in Hq. }
  assert (Hs : no_quote (strip (drop1 line)) = true)
    by (unfold strip; now apply no_quote_rstrip, no_quote_lstrip).
  assert (Hf : findall (strip (drop1 line)) = split (drop1 line)).
  { rewrite <- split_strip. unfold findall, split.
    now rewrite (re_scan_no_quote _ Hs). }
  rewrite mapM_unquote_id.
  - now rewrite Hf.
  - apply findall_nonempty.
  - rewrite Hf, <- split_strip. unfold split.
    destruct (split_scan_no_quote _ Hs) as [Hw Hws].
    destruct (split_scan (strip (drop1 line))) as [w ws]. cbn [fst snd] in *.
    destruct w; cbn [push_word]; auto.
Qed.

Lemma header_tokens_without_quotes_witness :
  header_tokens "@ legend  box on " = Ok (split " legend  box on ").
Proof.
  exact (header_tokens_without_quotes "@ legend  box on " eq_refl).
Defined.

(** ** The directives [title], [xaxis] and [yaxis] *)






(** ** [parse] as headers and rows *)

(** The loop is the header lines it reads, applied in their order, and the
    rows of the other lines. *)
Lemma parse_loop_factors (content : list string) :
  forall self values,
    parse_loop self values content
    = match apply_headers self (header_lines content) with
      | (s, Ok _) =>
          (s, Ok (values ++ data_rows content)%list, lines_after content)
      | (s, Raise e) => (s, Raise e, snd (parse_loop self values content))
      end.
Proof.
  unfold header_lines.
  induction content as [|line rest IH]; intros self values;
    cbn [parse_loop lines_read data_rows lines_after filter apply_headers].
  - now rewrite app_nil_r.
  - destruct (startswith line "//") eqn:Ht.
    + cbn [filter apply_headers]. now rewrite app_nil_r.
    + cbn [filter]. unfold comment_or_header.
      destruct (startswith line "@") eqn:Ha; cbn [orb apply_headers].
      * destruct (_parse_header_line self line) as [s1|e]; [|reflexivity].
        apply IH.
      * destruct (startswith line "#").
        -- apply IH.
        -- rewrite IH. destruct (apply_headers self _) as [s [[]|e]];
             [|reflexivity].
           now rewrite <- app_assoc.
Qed.

(** X4. [parse] separates into its header lines and its data rows, both
    taken before the first terminator: the attributes are those the header
    lines set in their order, the matrix is [numpy.array] of the rows, a
    header line that raises wins over any malformed row, wherever the row
    stands, and after a loop without exception the unread lines are those
    after the terminator.  [from_iter] returns the table so built. *)
Theorem parse_factors :
  (forall self content,
      fst (parse self content)
      = match apply_headers self (header_lines content) with
        | (s, Raise e) => (s, Raise e)
        | (s, Ok _) =>
            match numpy_array (data_rows content) with
            | Ok a => (set_array s a, Ok tt)
            | Raise e => (s, Raise e)
            end
        end)
  /\ (forall self content,
         is_ok (snd (apply_headers self (header_lines content))) = true ->
         snd (parse self content) = lines_after content)
  /\ (forall content,
         from_iter content
         = match apply_headers __init__ (header_lines content) with
           | (_, Raise e) => Raise e
           | (s, Ok _) =>
               a <- numpy_array (data_rows content) ;; Ok (set_array s a)
           end).
Proof.
  assert (H1 : forall self content,
             fst (parse self content)
             = match apply_headers self (header_lines content) with
               | (s, Raise e) => (s, Raise e)
               | (s, Ok _) =>
                   match numpy_array (data_rows content) with
                   | Ok a => (set_array s a, Ok tt)
                   | Raise e => (s, Raise e)
                   end
               end).
  { intros self content. unfold parse. rewrite parse_loop_factors.
    destruct (apply_headers self _) as [s [[]|e]]; [|reflexivity].
    cbn [List.app]. now destruct (numpy_array (data_rows content)). }
  split; [exact H1|]. split.
  - intros self content Hok. unfold parse. rewrite parse_loop_factors.
    destruct (apply_headers self _) as [s [[]|e]]; [|discriminate].
    cbn [List.app]. now destruct (numpy_array (data_rows content)).
  - intros content. unfold from_iter. specialize (H1 __init__ content).
    destruct (parse __init__ content) as [[xvg r] u]. cbn [fst] in H1.
    destruct (apply_headers __init__ _) as [s [[]|e]].
    + destruct (numpy_array (data_rows content)); now inversion H1.
    + now inversion H1.
Qed.

Lemma parse_factors_witness :
  snd (parse __init__ ["1 2"; "@ title T"; "//"; "3 4"; "5"])
  = lines_after ["1 2"; "@ title T"; "//"; "3 4"; "5"].
Proof.
  exact (proj1 (proj2 parse_factors) __init__
           ["1 2"; "@ title T"; "//"; "3 4"; "5"] eq_refl).
Defined.

Lemma lines_comment (line : string) (post : list string) :
  startswith line "#" = true ->
  forall pre,
    header_lines (pre ++ line :: post) = header_lines (pre ++ post)
    /\ data_rows (pre ++ line :: post) = data_rows (pre ++ post).
Proof.
  intros Hc. destruct (comment_not_terminator _ Hc) as [Ht Ha].
  unfold header_lines.
  induction pre as [|l pre [IH1 IH2]];
    cbn [List.app lines_read data_rows filter].
  - unfold comment_or_header. rewrite Ht, Ha, Hc. cbn [filter orb].
    rewrite Ha. split; reflexivity.
  - destruct (startswith l "//"); [split; reflexivity|].
    cbn [filter]. rewrite IH1, IH2. split; reflexivity.
Qed.

(** X5. A line that starts with [#] can stand anywhere, or be left out:
    the table and the outcome of [parse] are the same. *)
Theorem comment_line_ignored
    (self : XvgSingle) (pre : list string) (line : string)
    (post : list string) :
  startswith line "#" = true ->
  fst (parse self (pre ++ line :: post)) = fst (parse self (pre ++ post)).
Proof.
  intros Hc. destruct (lines_comment line post Hc pre) as [Hh Hd].
  unfold parse.
  rewrite (parse_loop_factors (pre ++ line :: post)),
    (parse_loop_factors (pre ++ post)), Hh, Hd.
  destruct (apply_headers self _) as [s [[]|e]]; [|reflexivity].
  cbn [List.app]. now destruct (numpy_array (data_rows (pre ++ post))).
Qed.

Lemma comment_line_ignored_witness :
  fst (parse __init__ (["@ title T"; "1 2"] ++ "# note" :: ["3 4"]))
  = fst (parse __init__ (["@ title T"; "1 2"] ++ ["3 4"])).
Proof.
  exact (comment_line_ignored __init__ ["@ title T"; "1 2"] "# note"
           ["3 4"] eq_refl).
Defined.

(** X6. When a header line raises, the attributes set by the header lines
    before it stay on the table: [parse] leaves the table as those lines
    made it, raises the exception of the failing line, and has read nothing
    after it. *)
Theorem header_error_keeps_earlier
    (self s : XvgSingle) (pre : list string) (line : string)
    (post : list string) (e : exn) :
  no_terminator pre ->
  apply_headers self (filter (fun l => startswith l "@") pre) = (s, Ok tt) ->
  startswith line "@" = true ->
  _parse_header_line s line = Raise e ->
  parse self (pre ++ line :: post) = (s, Raise e, post).
Proof.
  intros Hpre Hh Ha He. unfold parse.
  assert (Hloop : forall values,
             parse_loop self values (pre ++ line :: post)
             = (s, Raise e, post)); [|now rewrite Hloop].
  revert self Hh. induction pre as [|l pre IH]; intros self Hh values;
    cbn [List.app parse_loop filter apply_headers] in *.
  - inversion Hh; subst. now rewrite (header_not_terminator _ Ha), Ha, He.
  - inversion Hpre as [|? ? Hl Hpre']; subst. rewrite Hl.
    destruct (startswith l "@"); cbn [apply_headers] in Hh.
    + destruct (_parse_header_line self l) as [s1|e1]; [|discriminate].
      now apply IH.
    + destruct (startswith l "#"); now apply IH.
Qed.

Lemma header_error_keeps_earlier_witness :
  parse __init__ (["@ title T"; "1 2"] ++ "@ xaxis" :: ["3 4"])
  = (set_title __init__ "T", Raise IndexError, ["3 4"]).
Proof.
  apply (header_error_keeps_earlier __init__ (set_title __init__ "T")
           ["@ title T"; "1 2"] "@ xaxis" ["3 4"] IndexError).
  - repeat constructor.
  - reflexivity.
  - reflexivity.
  - reflexivity.
Defined.

(** ** Line ends *)

Lemma prefix_app_blank (p e : string) :
  string_forall not_space p = true -> blank e = true ->
  forall l, String.prefix p (l ++ e) = String.prefix p l.
Proof.
  unfold blank, not_space. intros Hp He.
  induction p as [|a p IH]; intros l.
  - now destruct l, e.
  - cbn [string_forall] in Hp. apply andb_true_iff in Hp.
    destruct Hp as [Ha Hp]. apply negb_true_iff in Ha.
    destruct l as [|b l]; cbn [append String.prefix].
    + destruct e as [|b e]; cbn [String.prefix]; [reflexivity|].
      destruct (ascii_dec a b) as [<- | _]; [|reflexivity].
      cbn [string_forall] in He. now rewrite Ha in He.
    + destruct (ascii_dec a b); [now apply IH | reflexivity].
Qed.

Lemma strip_app_blank (x e : string) :
  blank e = true -> strip (x ++ e) = strip x.
Proof.
  intros He. unfold strip. induction x as [|c r IH]; cbn [append lstrip].
  - now rewrite (lstrip_blank _ He).
  - destruct (isspace c); [exact IH|].
    change (String c (r ++ e)) with (String c r ++ e).
    now apply rstrip_app_blank.
Qed.

Lemma split_scan_app_blank (l e : string) :
  blank e = true -> split_scan (l ++ e) = split_scan l.
Proof.
  unfold blank. intros He. induction l as [|c r IH]; cbn [append].
  - induction e as [|b e IHe]; [reflexivity|].
    cbn [string_forall split_scan] in *. apply andb_true_iff in He.
    destruct He as [Hb He]. now rewrite (IHe He), Hb.
  - cbn [split_scan]. now rewrite IH.
Qed.

Lemma header_tokens_app_blank (l e : string) :
  l <> "" -> blank e = true -> header_tokens (l ++ e) = header_tokens l.
Proof.
  intros Hl He. unfold header_tokens. destruct l as [|c r]; [contradiction|].
  cbn [append drop1]. now rewrite (strip_app_blank _ _ He).
Qed.

Lemma parse_loop_line_ends (eol : string) :
  blank eol = true ->
  forall content self values,
    parse_loop self values (map (fun l => l ++ eol) content)
    = (let '(s, r, u) := parse_loop self values content in
       (s, r, map (fun l => l ++ eol) u)).
Proof.
  intros He. induction content as [|line rest IH]; intros self values;
    cbn [map parse_loop]; [reflexivity|].
  unfold startswith.
  rewrite (prefix_app_blank "//" eol eq_refl He),
    (prefix_app_blank "@" eol eq_refl He),
    (prefix_app_blank "#" eol eq_refl He).
  fold (startswith line "//") (startswith line "@") (startswith line "#").
  destruct (startswith line "//"); [reflexivity|].
  destruct (startswith line "@") eqn:Ha.
  - assert (Hne : line <> "") by (intros ->; discriminate Ha).
    unfold _parse_header_line.
    rewrite (header_tokens_app_blank _ _ Hne He).
    fold (_parse_header_line self line).
    destruct (_parse_header_line self line); [apply IH | reflexivity].
  - destruct (startswith line "#"); [apply IH|].
    unfold split. rewrite (split_scan_app_blank _ _ He). apply IH.
Qed.

(** X7. Blanks at the end of every line, such as the line ends of the
    lines of a file, change nothing: the table and the outcome of [parse]
    are those of the lines without them, and so is what [from_iter]
    returns. *)
Theorem line_ends_ignored (eol : string) (content : list string) :
  blank eol = true ->
  (forall self,
      fst (parse self (map (fun l => l ++ eol) content))
      = fst (parse self content))
  /\ from_iter (map (fun l => l ++ eol) content) = from_iter content.
Proof.
  intros He.
  assert (H : forall self,
             fst (parse self (map (fun l => l ++ eol) content))
             = fst (parse self content)).
  { intros self. unfold parse. rewrite (parse_loop_line_ends _ He).
    destruct (parse_loop self [] content) as [[s [vs|e]] u]; [|reflexivity].
    now destruct (numpy_array vs). }
  split; [exact H|]. unfold from_iter. specialize (H __init__).
  destruct (parse __init__ (map _ content)) as [[x1 r1] u1].
  destruct (parse __init__ content) as [[x2 r2] u2].
  cbn [fst] in H. now inversion H.
Qed.

Lemma line_ends_ignored_witness :
  (forall self,
      fst (parse self (map (fun l => l ++ String "010" "")
                         ["@ title T"; "1 2"; ""]))
      = fst (parse self ["@ title T"; "1 2"; ""]))
  /\ from_iter (map (fun l => l ++ String "010" "")
                  ["@ title T"; "1 2"; ""])
     = from_iter ["@ title T"; "1 2"; ""].
Proof.
  exact (line_ends_ignored (String "010" "") ["@ title T"; "1 2"; ""]
           eq_refl).
Defined.

(** ** A parsed table and its items *)

Lemma parse_ok_matrix (self self' : XvgSingle) (content unread : list string) :
  parse self content = (self', Ok tt, unread) ->
  numpy_array (data_rows content) = Ok (_array self')
  /\ _columns self' = _columns (fst (fst (parse_loop self [] content))).
Proof.
  unfold parse. destruct (parse_loop self [] content) as [[s [vs|e]] u] eqn:E;
    [|discriminate].
  rewrite (parse_loop_values _ _ _ _ _ _ E). cbn [List.app].
  destruct (numpy_array (data_rows content)) as [a|]; [|discriminate].
  intros H. inversion H; subst. split; reflexivity.
Qed.

Lemma numpy_array_rows (values : list (list string)) (a : ndarray) :
  numpy_array values = Ok a ->
  match values with
  | [] => a = Array1 []
  | row :: _ =>
      exists rows,
        a = Array2 (List.length row) rows
        /\ Forall (fun r => List.length r = List.length row) values
        /\ mapM (mapM py_float) values = Ok rows
  end.
Proof.
  unfold numpy_array. destruct values as [|row rest].
  - intros H. now inversion H.
  - destruct (forallb _ (row :: rest)) eqn:Hall; [|discriminate].
    destruct (mapM (mapM py_float) (row :: rest)) as [rows|] eqn:Hm;
      cbn [bind]; [|discriminate].
    intros H. inversion H; subst. exists rows. split; [reflexivity|].
    split; [|reflexivity]. rewrite Forall_forall. intros r Hr.
    rewrite forallb_forall in Hall. now apply Nat.eqb_eq, Hall.
Qed.

Lemma mapM_nth {A B : Type} (f : A -> result B) (l : list A) :
  forall l' i x,
    mapM f l = Ok l' -> nth_error l i = Some x ->
    exists y, nth_error l' i = Some y /\ f x = Ok y.
Proof.
  induction l as [|a l IH]; intros l' i x; cbn [mapM].
  - intros _ H. destruct i; discriminate H.
  - destruct (f a) as [b|] eqn:Ha; cbn [bind]; [|discriminate].
    destruct (mapM f l) as [bs|]; cbn [bind]; [|discriminate].
    intros H Hi. inversion H; subst. destruct i as [|i]; cbn in Hi |- *.
    + inversion Hi; subst. now exists b.
    + now apply IH.
Qed.

(** X8. After a [parse] that returns, the item [(i, j)] of the table is
    the float of token [j] of data row [i], rows and tokens counted from 0
    in the order of the input, and the item [i] is the floats of row [i]. *)
Theorem parse_then_index
    (self self' : XvgSingle) (content unread : list string)
    (i j : nat) (row : list string) (t : string) :
  parse self content = (self', Ok tt, unread) ->
  nth_error (data_rows content) i = Some row ->
  nth_error row j = Some t ->
  exists x frow,
    py_float t = Ok x
    /\ mapM py_float row = Ok frow
    /\ __getitem__ self' (KTuple [IInt (Z.of_nat i); IInt (Z.of_nat j)])
       = Ok (VFloat x)
    /\ __getitem__ self' (KIndex (IInt (Z.of_nat i)))
       = Ok (VArray (Array1 frow)).
Proof.
  intros Hp Hi Hj. destruct (parse_ok_matrix _ _ _ _ Hp) as [Ha _].
  apply numpy_array_rows in Ha.
  destruct (data_rows content) as [|row0 rest] eqn:Hd;
    [destruct i; discriminate Hi|].
  destruct Ha as [rows [Harr [_ Hm]]].
  destruct (mapM_nth _ _ _ _ _ Hm Hi) as [frow [Hfi Hfrow]].
  destruct (mapM_nth _ _ _ _ _ Hfrow Hj) as [x [Hxj Hx]].
  exists x, frow. split; [exact Hx|]. split; [exact Hfrow|].
  unfold __getitem__. cbn [py_hash forallb is_int andb dict_contains].
  rewrite Harr. cbn [ndarray_getitem getitem_axes getitem_axis0].
  rewrite (item_of_nth_error _ _ _ Hfi). cbn [bind].
  rewrite (item_of_nth_error _ _ _ Hxj). split; reflexivity.
Qed.

Lemma parse_then_index_witness :
  exists x frow,
    py_float "4.5" = Ok x
    /\ mapM py_float ["3"; "4.5"] = Ok frow
    /\ __getitem__
         (set_array (set_title __init__ "T")
            (Array2 2 [[FDec false 1 0; FDec false 2 0];
                       [FDec false 3 0; FDec false 45 (-1)]]))
         (KTuple [IInt (Z.of_nat 1); IInt (Z.of_nat 1)])
       = Ok (VFloat x)
    /\ __getitem__
         (set_array (set_title __init__ "T")
            (Array2 2 [[FDec false 1 0; FDec false 2 0];
                       [FDec false 3 0; FDec false 45 (-1)]]))
         (KIndex (IInt (Z.of_nat 1)))
       = Ok (VArray (Array1 frow)).
Proof.
  exact (parse_then_index __init__ _ ["@ title T"; "1 2"; "# c"; "3 4.5"] []
           1 1 ["3"; "4.5"] "4.5" eq_refl eq_refl eq_refl).
Defined.

Lemma token_column_rows (n j : nat) (values : list (list string)) :
  (j < n)%nat ->
  forall rows,
    Forall (fun r => List.length r = n) values ->
    mapM (mapM py_float) values = Ok rows ->
    token_column j values = Ok (matrix_column j rows).
Proof.
  intros Hj. unfold token_column.
  induction values as [|v values IH]; intros rows Hall; cbn [mapM].
  - intros H. now inversion H.
  - inversion Hall as [|? ? Hv Hrest]; subst.
    destruct (mapM py_float v) as [fr|] eqn:Hfr; cbn [bind]; [|discriminate].
    destruct (mapM (mapM py_float) values) as [frs|] eqn:Hfrs; cbn [bind];
      [|discriminate].
    intros H. inversion H; subst.
    destruct (nth_error v j) as [t|] eqn:Ht;
      [|apply nth_error_None in Ht; lia].
    destruct (mapM_nth _ _ _ _ _ Hfr Ht) as [x [Hx Hpx]].
    rewrite Hpx. cbn [bind]. rewrite (IH frs Hrest eq_refl).
    cbn [matrix_column map]. now rewrite (nth_error_nth _ _ _ Hx).
Qed.

(** X9. After a [parse] that returns with data rows, the item of a
    registered name of index [j], [0 <= j] below the number of tokens of a
    row, is the sequence of the floats of token [j] of every data row, in
    the order of the rows. *)
Theorem parse_then_column
    (self self' : XvgSingle) (content unread : list string)
    (name : string) (j : nat) (row : list string) (rest : list (list string)) :
  parse self content = (self', Ok tt, unread) ->
  dict_get (_columns self') name = Some (Z.of_nat j) ->
  data_rows content = row :: rest ->
  (j < List.length row)%nat ->
  exists col,
    token_column j (data_rows content) = Ok col
    /\ List.length col = List.length (data_rows content)
    /\ __getitem__ self' (KStr name) = Ok (VArray (Array1 col)).
Proof.
  intros Hp Hn Hd Hj. destruct (parse_ok_matrix _ _ _ _ Hp) as [Ha _].
  apply numpy_array_rows in Ha. rewrite Hd in Ha |- *.
  destruct Ha as [rows [Harr [Hall Hm]]].
  pose proof (token_column_rows _ _ _ Hj _ Hall Hm) as Hcol.
  exists (matrix_column j rows). split; [exact Hcol|]. split.
  - unfold matrix_column. rewrite length_map.
    now apply mapM_length with (f := mapM py_float).
  - rewrite (getitem_registered _ _ _ Hn), Harr.
    unfold slice_all. cbn [ndarray_getitem getitem_axes].
    rewrite slice_of_all. cbn [bind]. unfold norm_index.
    replace (- Z.of_nat (List.length row) <=? Z.of_nat j) with true
      by (symmetry; apply Z.leb_le; lia).
    replace (Z.of_nat j <? Z.of_nat (List.length row)) with true
      by (symmetry; apply Z.ltb_lt; lia).
    cbn [andb bind].
    assert (Hrect : Forall (fun r => List.length r = List.length row) rows).
    { apply mapM_rows with (values := row :: rest); [|exact Hm].
      apply forallb_forall. intros r Hr. apply Nat.eqb_eq.
      rewrite Forall_forall in Hall. now apply Hall. }
    rewrite (matrix_column_items rows (List.length row) (Z.of_nat j))
      by (try lia; exact Hrect).
    now rewrite Nat2Z.id.
Qed.

Lemma parse_then_column_witness :
  exists col,
    token_column 1 (data_rows ["@ s0 legend pot"; "0 5"; "1 7"]) = Ok col
    /\ List.length col
       = List.length (data_rows ["@ s0 legend pot"; "0 5"; "1 7"])
    /\ __getitem__
         (set_array (set_columns __init__ [("pot", 1)])
            (Array2 2 [[FDec false 0 0; FDec false 5 0];
                       [FDec false 1 0; FDec false 7 0]]))
         (KStr "pot")
       = Ok (VArray (Array1 col)).
Proof.
  refine (parse_then_column __init__ _ ["@ s0 legend pot"; "0 5"; "1 7"] []
            "pot" 1 ["0"; "5"] [["1"; "7"]] eq_refl eq_refl eq_refl _).
  simpl. lia.
Defined.

(** ** Names on a table without that column *)



(** ** The shape of a parsed table *)

(** X11. After a [parse] that returns, [shape], which [__getattr__] takes
    from the matrix, is the number of data rows and the number of tokens of
    a row, and [(0,)] when the input has no data row; [ndim] is 2 and 1. *)
Theorem shape_after_parse
    (self self' : XvgSingle) (content unread : list string) :
  parse self content = (self', Ok tt, unread) ->
  match data_rows content with
  | [] =>
      __getattr__ self' nd_shape = ATuple [0]
      /\ __getattr__ self' nd_ndim = AInt 1
  | row :: _ =>
      __getattr__ self' nd_shape
      = ATuple [Z.of_nat (List.length (data_rows content));
                Z.of_nat (List.length row)]
      /\ __getattr__ self' nd_ndim = AInt 2
  end.
Proof.
  intros Hp. destruct (parse_ok_matrix _ _ _ _ Hp) as [Ha _].
  apply numpy_array_rows in Ha. unfold __getattr__.
  destruct (data_rows content) as [|row rest].
  - rewrite Ha. split; reflexivity.
  - destruct Ha as [rows [-> [_ Hm]]]. cbn [ndarray_getattr].
    rewrite (mapM_length _ _ _ Hm). split; reflexivity.
Qed.

Lemma shape_after_parse_witness :
  __getattr__ (set_array __init__
                 (Array2 2 [[FDec false 1 0; FDec false 2 0];
                            [FDec false 3 0; FDec false 4 0]])) nd_shape
  = ATuple [Z.of_nat (List.length (data_rows ["1 2"; "# c"; "3 4"])); 2]
  /\ __getattr__ (set_array __init__
                    (Array2 2 [[FDec false 1 0; FDec false 2 0];
                               [FDec false 3 0; FDec false 4 0]])) nd_ndim
     = AInt 2.
Proof.
  exact (shape_after_parse __init__ _ ["1 2"; "# c"; "3 4"] [] eq_refl).
Defined.

(** ** What [columns] returns *)

Lemma name_at_in (l : list item) (n : string) (k : Z) :
  NoDup (map snd l) -> In (n, k) l -> name_at l k = n.
Proof.
  unfold name_at. induction l as [|[n0 v0] l IH]; [intros _ []|].
  cbn [map snd find]. intros Hnd Hin. inversion Hnd as [|? ? Hn0 Hnd']; subst.
  destruct (v0 =? k) eqn:E.
  - apply Z.eqb_eq in E. subst v0. destruct Hin as [Heq | Hin].
    + now inversion Heq.
    + elim Hn0. now apply (in_map snd) in Hin.
  - destruct Hin as [Heq | Hin]; [|now apply IH].
    inversion Heq; subst. now rewrite Z.eqb_refl in E.
Qed.

Lemma name_at_absent (l : list item) (k : Z) :
  (forall x, In x l -> snd x <> k) -> name_at l k = "".
Proof.
  unfold name_at. intros H.
  destruct (find (fun x => snd x =? k) l) as [x|] eqn:E; [|reflexivity].
  apply find_some in E. destruct E as [Hin Hk]. apply Z.eqb_eq in Hk.
  now elim (H x Hin).
Qed.

Lemma name_at_perm (l l' : list item) (k : Z) :
  NoDup (map snd l) -> Permutation l l' -> name_at l k = name_at l' k.
Proof.
  intros Hnd Hp.
  assert (Hnd' : NoDup (map snd l'))
    by (apply (Permutation_NoDup (Permutation_map snd Hp) Hnd)).
  destruct (find (fun x => snd x =? k) l) as [[n v]|] eqn:E.
  - apply find_some in E. destruct E as [Hin Hk]. cbn [snd] in Hk.
    apply Z.eqb_eq in Hk. subst v.
    rewrite (name_at_in l n k Hnd Hin).
    symmetry. apply name_at_in; [exact Hnd'|].
    now apply (Permutation_in _ Hp).
  - rewrite (name_at_absent l k), (name_at_absent l' k); [reflexivity| |].
    + intros x Hx Hk. apply (Permutation_in _ (Permutation_sym Hp)) in Hx.
      pose proof (find_none _ _ E x Hx) as Hf. cbn beta in Hf.
      apply Z.eqb_neq in Hf. contradiction.
    + intros x Hx Hk. pose proof (find_none _ _ E x Hx) as Hf.
      cbn beta in Hf. apply Z.eqb_neq in Hf. contradiction.
Qed.

Lemma highest_in (l : list item) (x : item) : In x l -> snd x <= highest l.
Proof.
  unfold highest. induction l as [|y l IH]; [intros []|].
  cbn [map fold_right]. intros [-> | Hin]; [lia|]. specialize (IH Hin). lia.
Qed.

Lemma highest_cons (x : item) (l : list item) :
  highest (x :: l) = Z.max (snd x) (highest l).
Proof. reflexivity. Qed.

(** The loop over sorted items of distinct values runs its body once for
    every position up to the highest value. *)
Lemma columns_loop_content (n : nat) :
  forall items acc i,
    StronglySorted by_value items -> NoDup (map snd items) ->
    Forall (fun x => i <= snd x) items -> 0 <= i ->
    n = Z.to_nat (highest items + 1 - i) ->
    columns_loop n items acc i
    = Some (acc ++ map (fun k => name_at items (i + Z.of_nat k))
                    (seq 0 n))%list.
Proof.
  induction n as [|m IH]; intros items acc i Hs Hnd Hge Hi Hn.
  - destruct items as [|[nm v] items'].
    + cbn [columns_loop seq map]. now rewrite app_nil_r.
    + exfalso. inversion Hge as [|? ? Hv _]; subst. cbn [snd] in Hv.
      rewrite highest_cons in Hn. cbn [snd] in Hn. lia.
  - destruct items as [|[nm v] items'].
    + exfalso. unfold highest in Hn. cbn [map fold_right] in Hn. lia.
    + inversion Hs as [|? ? Hs' Hle]; inversion Hnd as [|? ? Hnv Hnd'];
        inversion Hge as [|? ? Hv Hge']; subst. cbn [snd] in Hv.
      assert (Hnext : Forall (fun x => v + 1 <= snd x) items').
      { rewrite Forall_forall in *. intros x Hx. specialize (Hle x Hx).
        unfold by_value in Hle. cbn [snd] in Hle.
        assert (snd x <> v) by (intros <-; apply Hnv; now apply in_map).
        lia. }
      rewrite highest_cons in Hn. cbn [snd] in Hn.
      cbn [columns_loop]. destruct (v =? i) eqn:E.
      * apply Z.eqb_eq in E. subst v.
        assert (Hm : m = Z.to_nat (highest items' + 1 - (i + 1))).
        { destruct items' as [|y items''].
          - unfold highest in *. cbn [map fold_right] in *. lia.
          - inversion Hnext as [|? ? Hy _]; subst.
            pose proof (highest_in (y :: items'') y (or_introl eq_refl)).
            lia. }
        rewrite (IH items' _ (i + 1) Hs' Hnd' Hnext ltac:(lia) Hm).
        f_equal. rewrite <- app_assoc. f_equal.
        cbn [seq map List.app]. f_equal.
        -- unfold name_at. cbn [find snd fst].
           replace (i + Z.of_nat 0) with i by lia. now rewrite Z.eqb_refl.
        -- rewrite <- seq_shift, map_map. apply map_ext. intros k.
           replace (i + Z.of_nat (S k)) with (i + 1 + Z.of_nat k) by lia.
           unfold name_at. cbn [find snd].
           replace (i =? i + 1 + Z.of_nat k) with false
             by (symmetry; apply Z.eqb_neq; lia).
           reflexivity.
      * apply Z.eqb_neq in E.
        assert (Hge1 : Forall (fun x => i + 1 <= snd x) ((nm, v) :: items')).
        { constructor; [cbn [snd]; lia|]. rewrite Forall_forall in *.
          intros x Hx. specialize (Hnext x Hx). lia. }
        pose proof (highest_in items' ) as Hh.
        assert (Hm : m = Z.to_nat (highest ((nm, v) :: items') + 1 - (i + 1)))
          by (rewrite highest_cons; cbn [snd]; lia).
        rewrite (IH _ _ (i + 1) Hs Hnd Hge1 ltac:(lia) Hm).
        f_equal. rewrite <- app_assoc. f_equal.
        cbn [seq map List.app]. f_equal.
        -- symmetry. apply name_at_absent. intros x Hx.
           rewrite Forall_forall in Hge1. specialize (Hge1 x Hx).
           replace (i + Z.of_nat 0) with i by lia. lia.
        -- rewrite <- seq_shift, map_map. apply map_ext. intros k.
           now replace (i + Z.of_nat (S k)) with (i + 1 + Z.of_nat k) by lia.
Qed.

(** X12. When the registered indices are distinct and non-negative,
    [columns] returns within one turn of its loop for every position from
    0 to the highest index, and the list it returns holds at each position
    the name registered with that index, or the empty string where no name
    is. *)
Theorem columns_content (self : XvgSingle) :
  NoDup (dict_values (_columns self)) ->
  Forall (fun v => 0 <= v) (dict_values (_columns self)) ->
  let n := Z.to_nat (highest (_columns self) + 1) in
  columns n self
  = Some (map (fun k => name_at (_columns self) (Z.of_nat k)) (seq 0 n)).
Proof.
  intros Hnd Hnn n. subst n. unfold columns, dict_values in *.
  pose proof (sorted_items_perm (_columns self)) as Hp.
  assert (Hnds : NoDup (map snd (sorted_items (_columns self))))
    by (apply (Permutation_NoDup
                 (Permutation_map snd (Permutation_sym Hp)) Hnd)).
  rewrite (columns_loop_content _ (sorted_items (_columns self)) [] 0).
  - cbn [List.app]. f_equal. apply map_ext. intros k. cbn [Z.add].
    now apply name_at_perm.
  - apply sorted_items_sorted.
  - exact Hnds.
  - rewrite Forall_forall in *. intros x Hx. apply Hnn.
    apply in_map. now apply (Permutation_in _ Hp).
  - lia.
  - rewrite highest_sorted. f_equal. lia.
Qed.

Lemma columns_content_witness :
  columns (Z.to_nat (highest [("b", 3); ("a", 1)] + 1))
    (set_columns __init__ [("b", 3); ("a", 1)])
  = Some (map (fun k => name_at [("b", 3); ("a", 1)] (Z.of_nat k))
            (seq 0 (Z.to_nat (highest [("b", 3); ("a", 1)] + 1)))).
Proof.
  apply (columns_content (set_columns __init__ [("b", 3); ("a", 1)])).
  - constructor; [intros [H | []]; discriminate H|].
    constructor; [intros [] | constructor].
  - repeat (constructor; [simpl; lia|]). constructor.
Defined.

(** ** From legend directives to [columns] *)









(** ** A legend directive without a number *)

Lemma int_rstrip_head (c : ascii) (r : string) :
  exists r', int_rstrip (String c r) = String c r' \/ (int_isspace c = true).
Proof.
  cbn [int_rstrip]. destruct (int_rstrip r) as [|d r'].
  - destruct (int_isspace c); [exists ""; now right | exists ""; now left].
  - exists (String d r'). now left.
Qed.

Lemma py_int_not_number (s : string) :
  match s with
  | EmptyString => True
  | String c _ =>
      int_isspace c = false /\ is_digit c = false
      /\ Ascii.eqb c "+" = false /\ Ascii.eqb c "-" = false
  end ->
  py_int s = Raise ValueError.
Proof.
  destruct s as [|c r]; [reflexivity|]. intros [Hs [Hd [Hp Hm]]].
  unfold py_int, int_strip. cbn [int_lstrip]. rewrite Hs.
  destruct (int_rstrip_head c r) as [r' [Hr | Hc]]; [|congruence].
  rewrite Hr. unfold split_sign. rewrite Hp, Hm.
  unfold unsigned_int, digitpart. now rewrite Hd.
Qed.

(** X14. A header line whose command is the letter [s] alone, or [s] and
    then a character that is no digit, no sign and none of the whitespace
    [int] skips (TAB to CR, SPACE, NEL, NBSP), and whose first argument is
    the word [legend], raises [ValueError] whatever follows, also when no
    name follows: the number is converted before the name is taken.  A
    command written between quotes may have such whitespace after its [s]:
    the line [@], the command [s 5] between double quotes, [legend x]
    registers [x] at column 6; and the separator FS, which [str.strip]
    removes and [int] refuses, is no such whitespace. *)
Theorem legend_without_number_raises
    (self : XvgSingle) (line suffix : string) (args : list string) :
  header_tokens line = Ok (String "s" suffix :: "legend" :: args) ->
  match suffix with
  | EmptyString => True
  | String c _ =>
      int_isspace c = false /\ is_digit c = false
      /\ Ascii.eqb c "+" = false /\ Ascii.eqb c "-" = false
  end ->
  _parse_header_line self line = Raise ValueError
  /\ _parse_header_line __init__ ("@ " ++ quoted "s 5" ++ " legend x")
     = Ok (mkXvg [("x", 6)] numpy_empty0 "" "" "")
  /\ isspace (ascii_of_nat 28) = true
  /\ _parse_header_line __init__
       ("@ " ++ quoted (String "s" (String (ascii_of_nat 28) "5"))
          ++ " legend x")
     = Raise ValueError.
Proof.
  intros Ht Hs. split; [|repeat split; reflexivity].
  rewrite (parse_header_legend_tokens self _ _ _ Ht (startswith_s_cons suffix)).
  cbn [drop1]. now rewrite (py_int_not_number _ Hs).
Qed.

Lemma legend_without_number_raises_witness :
  _parse_header_line __init__ "@ subtitle legend" = Raise ValueError
  /\ _parse_header_line __init__ ("@ " ++ quoted "s 5" ++ " legend x")
     = Ok (mkXvg [("x", 6)] numpy_empty0 "" "" "")
  /\ isspace (ascii_of_nat 28) = true
  /\ _parse_header_line __init__
       ("@ " ++ quoted (String "s" (String (ascii_of_nat 28) "5"))
          ++ " legend x")
     = Raise ValueError.
Proof.
  apply (legend_without_number_raises __init__ "@ subtitle legend"
           "ubtitle" []).
  - reflexivity.
  - repeat split; reflexivity.
Defined.

(** ** Registering names *)




(** ** The exceptions of item access *)







(** ** Parsing the same lines again *)

(** A header line does to every table the same assignment, or raises on
    every table. *)
Lemma parse_header_update (self : XvgSingle) (line : string) :
  _parse_header_line self line
  = (u <- header_update line ;; Ok (apply_update u self)).
Proof.
  unfold _parse_header_line, header_update, bind.
  destruct (header_tokens line) as [tokens|]; [|reflexivity].
  destruct (list_pop0 tokens) as [[command args]|]; [|reflexivity].
  destruct (String.eqb command "title").
  - destruct (list_pop0 args) as [[v ?]|]; reflexivity.
  - destruct (_translate_commands command) as [a|].
    + destruct (list_pop0 args) as [[v ?]|]; reflexivity.
    + destruct (startswith command "s"); [|reflexivity].
      destruct (list_item0 args) as [t0|]; [|reflexivity].
      destruct (String.eqb t0 "legend"); [|reflexivity].
      destruct (list_pop0 args) as [[? rest]|]; [|reflexivity].
      destruct (py_int (drop1 command)); [|reflexivity].
      destruct (list_pop rest) as [[name ?]|]; reflexivity.
Qed.

Lemma apply_headers_updates (hs : list string) :
  forall self s,
    apply_headers self hs = (s, Ok tt) ->
    exists us,
      s = apply_updates us self
      /\ forall self0,
           apply_headers self0 hs = (apply_updates us self0, Ok tt).
Proof.
  induction hs as [|h hs IH]; intros self s; cbn [apply_headers].
  - intros H. inversion H; subst. now exists [].
  - rewrite parse_header_update.
    destruct (header_update h) as [u|] eqn:Hu; cbn [bind]; [|discriminate].
    intros H. destruct (IH _ _ H) as [us [Hs Hall]].
    exists (u :: us). split; [exact Hs|].
    intros self0. rewrite parse_header_update, Hu. cbn [bind]. apply Hall.
Qed.

Lemma dict_set_twice (d : pydict) (k : string) (v w : Z) :
  dict_set (dict_set d k v) k w = dict_set d k w.
Proof.
  induction d as [|[a b] d IH]; cbn [dict_set].
  - now rewrite String.eqb_refl.
  - destruct (String.eqb a k) eqn:E; cbn [dict_set]; rewrite E;
      [reflexivity | now rewrite IH].
Qed.

Lemma dict_set_swap (d : pydict) (k k' : string) (v v' : Z) :
  k <> k' -> In k (dict_keys d) ->
  dict_set (dict_set d k v) k' v' = dict_set (dict_set d k' v') k v.
Proof.
  intros Hne. unfold dict_keys.
  induction d as [|[a b] d IH]; [intros []|]. cbn [map fst dict_set].
  intros Hin. destruct (String.eqb a k) eqn:Ek.
  - apply String.eqb_eq in Ek. subst a.
    assert (Ek' : String.eqb k k' = false) by now apply String.eqb_neq.
    cbn [dict_set]. rewrite Ek'. cbn [dict_set].
    now rewrite String.eqb_refl.
  - destruct Hin as [-> | Hin]; [now rewrite String.eqb_refl in Ek|].
    destruct (String.eqb a k') eqn:Ek'; cbn [dict_set]; rewrite Ek, Ek';
      [reflexivity | now rewrite (IH Hin)].
Qed.

Lemma dict_set_same_value (d : pydict) (k : string) (v : Z) :
  dict_get d k = Some v -> dict_set d k v = d.
Proof.
  induction d as [|[a b] d IH]; cbn [dict_get dict_set]; [discriminate|].
  destruct (String.eqb a k).
  - intros H. now inversion H.
  - intros H. now rewrite (IH H).
Qed.

Lemma same_slot_absorb (u u' : update) (s : XvgSingle) :
  same_slot u u' = true ->
  apply_update u' (apply_update u s) = apply_update u' s.
Proof.
  destruct u as [|a v|k v], u' as [|b w|k' w]; cbn [same_slot];
    try discriminate.
  - destruct a, b; cbn [attr_eqb]; try discriminate; reflexivity.
  - intros E. apply String.eqb_eq in E. subst k'.
    cbn [apply_update set_columns _columns]. now rewrite dict_set_twice.
Qed.

Lemma other_slot_swap (u u' : update) (s : XvgSingle) :
  same_slot u u' = false -> present u s ->
  apply_update u' (apply_update u s) = apply_update u (apply_update u' s).
Proof.
  destruct u as [|a v|k v], u' as [|b w|k' w]; cbn [same_slot present];
    try reflexivity.
  - destruct a, b; cbn [attr_eqb]; try discriminate; reflexivity.
  - destruct a; reflexivity.
  - destruct b; reflexivity.
  - intros E Hin. apply String.eqb_neq in E.
    cbn [apply_update set_columns _columns].
    now rewrite (dict_set_swap _ _ _ _ _ E Hin).
Qed.

Lemma present_apply (u u' : update) (s : XvgSingle) :
  present u s -> present u (apply_update u' s).
Proof.
  destruct u as [|a v|k v]; cbn [present]; try exact (fun _ => I).
  destruct u' as [|b w|k' w]; cbn [apply_update]; try exact (fun H => H).
  - destruct b; exact (fun H => H).
  - intros Hin. cbn [set_columns _columns]. apply dict_set_keys. now left.
Qed.

Lemma holds_fixed (u : update) (s : XvgSingle) :
  holds u s -> apply_update u s = s.
Proof.
  destruct s as [c a x y t]. destruct u as [|[] v|k v]; cbn; intros H;
    try reflexivity; try (now subst).
  now rewrite (dict_set_same_value _ _ _ H).
Qed.

Lemma holds_other (u u' : update) (s : XvgSingle) :
  holds u s -> same_slot u u' = false -> holds u (apply_update u' s).
Proof.
  destruct u as [|a v|k v]; [exact (fun _ _ => I)| |].
  - destruct u' as [|b w|k' w]; [exact (fun H _ => H)| |];
      destruct a; try destruct b; cbn; try discriminate; auto.
  - destruct u' as [|b w|k' w]; [exact (fun H _ => H)| |].
    + destruct b; exact (fun H _ => H).
    + cbn [holds same_slot apply_update set_columns _columns].
      intros H E. apply String.eqb_neq in E.
      rewrite dict_get_set_other; [exact H | exact E].
Qed.

Lemma holds_after (u : update) (s : XvgSingle) :
  holds u (apply_update u s) /\ present u (apply_update u s).
Proof.
  destruct u as [|[] v|k v]; cbn; try (split; [reflexivity | exact I]);
    try (split; exact I).
  split; [apply dict_get_set_same|]. apply dict_set_keys. now right.
Qed.

Lemma present_updates (us : list update) (u : update) :
  forall s, present u s -> present u (apply_updates us s).
Proof.
  unfold apply_updates. induction us as [|u1 us IH]; intros s H; [exact H|].
  cbn [fold_left]. now apply IH, present_apply.
Qed.

Lemma overwritten_update (us : list update) (u : update) :
  forall s,
    present u s -> existsb (same_slot u) us = true ->
    apply_updates us (apply_update u s) = apply_updates us s.
Proof.
  unfold apply_updates. induction us as [|u1 us IH]; intros s Hp;
    cbn [existsb fold_left]; [discriminate|].
  destruct (same_slot u u1) eqn:E; cbn [orb].
  - intros _. now rewrite (same_slot_absorb _ _ _ E).
  - intros Hex. rewrite (other_slot_swap _ _ _ E Hp).
    apply IH; [now apply present_apply | exact Hex].
Qed.

Lemma holds_updates (us : list update) (u : update) :
  forall s,
    holds u s -> existsb (same_slot u) us = false ->
    holds u (apply_updates us s).
Proof.
  unfold apply_updates. induction us as [|u1 us IH]; intros s Hh;
    cbn [existsb fold_left]; [intros _; exact Hh|].
  intros Hex. apply orb_false_iff in Hex. destruct Hex as [E Hex].
  apply IH; [now apply holds_other | exact Hex].
Qed.

Lemma apply_updates_app (us vs : list update) (s : XvgSingle) :
  apply_updates (us ++ vs) s = apply_updates vs (apply_updates us s).
Proof. unfold apply_updates. apply fold_left_app. Qed.

(** The assignments made a second time change nothing. *)
Lemma apply_updates_again (us : list update) :
  forall vs s,
    apply_updates us (apply_updates (vs ++ us) s)
    = apply_updates (vs ++ us) s.
Proof.
  induction us as [|u us IH]; intros vs s; [reflexivity|].
  change (apply_updates (u :: us) ?x)
    with (apply_updates us (apply_update u x)).
  replace (vs ++ u :: us)%list with ((vs ++ [u]) ++ us)%list
    by (now rewrite <- app_assoc).
  rewrite <- (IH (vs ++ [u])%list s) at 2.
  set (d := apply_updates ((vs ++ [u]) ++ us) s).
  assert (Hd : d = apply_updates us (apply_update u (apply_updates vs s))).
  { unfold d. now rewrite !apply_updates_app. }
  destruct (holds_after u (apply_updates vs s)) as [Hh Hp].
  destruct (existsb (same_slot u) us) eqn:E.
  - apply overwritten_update; [|exact E].
    rewrite Hd. now apply present_updates.
  - rewrite (holds_fixed u d); [reflexivity|].
    rewrite Hd. now apply holds_updates.
Qed.

Lemma apply_updates_set_array (us : list update) (a : ndarray) :
  forall s,
    apply_updates us (set_array s a) = set_array (apply_updates us s) a.
Proof.
  unfold apply_updates. induction us as [|u us IH]; intros s; [reflexivity|].
  cbn [fold_left]. rewrite <- IH. f_equal.
  destruct u as [|[] v|k v]; reflexivity.
Qed.

(** X17. A [parse] that has returned can be run again on the same lines
    and the table it has made: it returns, and the table, with its matrix,
    its title and labels and its names in their order, is unchanged. *)
Theorem parse_again
    (self s1 : XvgSingle) (content unread : list string) :
  parse self content = (s1, Ok tt, unread) ->
  parse s1 content = (s1, Ok tt, unread).
Proof.
  unfold parse. rewrite (parse_loop_factors content self).
  destruct (apply_headers self (header_lines content)) as [s [[]|e]] eqn:Hh;
    [|discriminate].
  cbn [List.app].
  destruct (numpy_array (data_rows content)) as [a|] eqn:Ha; [|discriminate].
  intros H. inversion H; subst. clear H.
  destruct (apply_headers_updates _ _ _ Hh) as [us [-> Hall]].
  rewrite (parse_loop_factors content), Hall. cbn [List.app]. rewrite Ha.
  rewrite apply_updates_set_array.
  pose proof (apply_updates_again us [] self) as Hag.
  cbn [List.app] in Hag. rewrite Hag.
  reflexivity.
Qed.

Lemma parse_again_witness :
  parse (set_array (set_columns (set_title __init__ "U") [("b", 3); ("a", 2)])
           (Array2 1 [[FDec false 1 0]]))
    ["@ title T"; "@ s2 legend b"; "@ s1 legend a"; "@ title U"; "1"]
  = (set_array (set_columns (set_title __init__ "U") [("b", 3); ("a", 2)])
       (Array2 1 [[FDec false 1 0]]),
     Ok tt, []).
Proof.
  exact (parse_again __init__ _
           ["@ title T"; "@ s2 legend b"; "@ s1 legend a"; "@ title U"; "1"]
           [] eq_refl).
Defined.

(** ** The outcome of [parse] and the table it starts from *)

Lemma apply_headers_outcome (hs : list string) :
  forall self self0,
    snd (apply_headers self hs) = snd (apply_headers self0 hs).
Proof.
  induction hs as [|h hs IH]; intros self self0; cbn [apply_headers];
    [reflexivity|].
  rewrite !parse_header_update.
  destruct (header_update h) as [u|]; cbn [bind]; [apply IH | reflexivity].
Qed.

(** X18. Whether [parse] returns or raises, with which exception, and the
    matrix it assembles when it returns, depend on the lines alone and not
    on the table [parse] is called on. *)
Theorem parse_outcome_of_lines
    (self self0 : XvgSingle) (content : list string) :
  snd (fst (parse self content)) = snd (fst (parse self0 content))
  /\ (is_ok (snd (fst (parse self content))) = true ->
      _array (fst (fst (parse self content)))
      = _array (fst (fst (parse self0 content)))
      /\ snd (parse self content) = snd (parse self0 content)).
Proof.
  unfold parse.
  rewrite (parse_loop_factors content self), (parse_loop_factors content self0).
  pose proof (apply_headers_outcome (header_lines content) self self0) as Ho.
  destruct (apply_headers self (header_lines content)) as [s [[]|e]];
    destruct (apply_headers self0 (header_lines content)) as [s0 [[]|e0]];
    cbn [snd] in Ho; try discriminate Ho.
  - cbn [List.app]. destruct (numpy_array (data_rows content)); cbn.
    + split; [reflexivity|]. intros _. split; reflexivity.
    + split; [reflexivity|]. discriminate.
  - cbn. split; [exact Ho|]. discriminate.
Qed.

Lemma parse_outcome_of_lines_witness :
  snd (fst (parse __init__ ["@ title T"; "1 2"]))
  = snd (fst (parse (set_title __init__ "old") ["@ title T"; "1 2"]))
  /\ (is_ok (snd (fst (parse __init__ ["@ title T"; "1 2"]))) = true ->
      _array (fst (fst (parse __init__ ["@ title T"; "1 2"])))
      = _array (fst (fst (parse (set_title __init__ "old")
                            ["@ title T"; "1 2"])))
      /\ snd (parse __init__ ["@ title T"; "1 2"])
         = snd (parse (set_title __init__ "old") ["@ title T"; "1 2"])).
Proof.
  exact (parse_outcome_of_lines __init__ (set_title __init__ "old")
           ["@ title T"; "1 2"]).
Defined.
